(** * SubjectiveRcloneDataSource: the streaming ingestion pipeline

    A shallow embedding of [SubjectiveRcloneDataSource.py]: the target
    resolver, the item counter, the listing ingestor, the catalogue store and
    the progress reporter, followed by the properties of the pipeline.

    Conventions.
    - A Python [str] is a [string]; a character is a code point below 256.
    - A Python [int] is a [Z]; [len] is a [nat] compared through [Z.of_nat].
    - Every method that performs an effect is a computation in the monad
      [Run]: it takes the world (catalogue file, progress fields of the
      object) and gives the value returned or the exception raised, the new
      world, and the calls it made to the outside, in order.
    - The external collaborators (the rclone subprocesses, the configuration
      file, the progress channel) are read from an [environment]; they fail
      with exceptions deriving from [Exception].  The methods that emit
      progress are also given for an object whose [_emit_progress] raises
      anything, an interrupt included (the definitions in [_with]).
    - Logging ([_log]) and the wall clock ([time.time]) are left out. *)

From Stdlib Require Import ZArith List String Ascii Bool Lia Permutation Sorted.
From Stdlib Require Import DecimalString.
Import ListNotations.

Local Open Scope string_scope.
Local Open Scope Z_scope.

(** ** Python string primitives *)

Module Py.

(** [s.split(sep)] for a one-character separator: never the empty list. *)
Fixpoint split (sep : ascii) (s : string) : list string :=
  match s with
  | EmptyString => [EmptyString]
  | String c rest =>
      if Ascii.eqb c sep then EmptyString :: split sep rest
      else match split sep rest with
           | [] => [String c EmptyString]
           | field :: fields => String c field :: fields
           end
  end.

(** [s.lstrip(chars)], the set of characters given as a predicate. *)
Fixpoint lstrip (p : ascii -> bool) (s : string) : string :=
  match s with
  | EmptyString => EmptyString
  | String c rest => if p c then lstrip p rest else s
  end.

(** [s.rstrip(chars)]. *)
Fixpoint rstrip (p : ascii -> bool) (s : string) : string :=
  match s with
  | EmptyString => EmptyString
  | String c rest =>
      match rstrip p rest with
      | EmptyString => if p c then EmptyString else String c EmptyString
      | kept => String c kept
      end
  end.

(** [s.strip(chars)]. *)
Definition strip (p : ascii -> bool) (s : string) : string :=
  rstrip p (lstrip p s).

Definition is_char (c : ascii) : ascii -> bool := Ascii.eqb c.

Definition slash : ascii := "/"%char.
Definition tab : ascii := "009"%char.
Definition newline : ascii := "010"%char.
Definition comma : ascii := ","%char.

(** [str.isspace] on one character, for code points below 256:
    U+0009..U+000D, U+001C..U+0020, U+0085 and U+00A0. *)
Definition isspace_char (c : ascii) : bool :=
  let n := nat_of_ascii c in
  ((9 <=? n) && (n <=? 13) || (28 <=? n) && (n <=? 32)
   || (n =? 133) || (n =? 160))%nat.

(** [s.strip()] without argument strips white space. *)
Definition strip_ws (s : string) : string := strip isspace_char s.

(** The ten decimal digits, the only characters [int] reads. *)
Definition isdecimal_char (c : ascii) : bool :=
  let n := nat_of_ascii c in ((48 <=? n) && (n <=? 57))%nat.

(** [str.isdigit] on one character, for code points below 256: besides the
    decimal digits it holds of the superscripts U+00B2, U+00B3 and U+00B9. *)
Definition isdigit_char (c : ascii) : bool :=
  let n := nat_of_ascii c in
  (isdecimal_char c || (n =? 178) || (n =? 179) || (n =? 185))%nat.

Fixpoint all_chars (p : ascii -> bool) (s : string) : bool :=
  match s with
  | EmptyString => true
  | String c rest => p c && all_chars p rest
  end.

(** [s.isdigit()]: false on the empty string. *)
Definition isdigit (s : string) : bool :=
  match s with
  | EmptyString => false
  | _ => all_chars isdigit_char s
  end.

Definition isdecimal (s : string) : bool :=
  match s with
  | EmptyString => false
  | _ => all_chars isdecimal_char s
  end.

(** Value of a string of decimal digits, most significant first. *)
Fixpoint decimal_value (acc : Z) (s : string) : Z :=
  match s with
  | EmptyString => acc
  | String c rest =>
      decimal_value (10 * acc + (Z.of_nat (nat_of_ascii c) - 48)) rest
  end.

(** [sep.join(items)]. *)
Fixpoint join (sep : string) (items : list string) : string :=
  match items with
  | [] => EmptyString
  | [item] => item
  | item :: rest => item ++ sep ++ join sep rest
  end.

(** Truthiness of a string. *)
Definition nonempty (s : string) : bool :=
  match s with
  | EmptyString => false
  | _ => true
  end.

(** [x in xs] for a list (or the keys of a dict) of strings. *)
Definition member (x : string) (xs : list string) : bool :=
  existsb (String.eqb x) xs.

End Py.

(** ** Exceptions and results *)

(** The exception classes the pipeline raises or meets that derive from
    [Exception].  [OtherException class msg] is an exception of another
    class deriving from [Exception], named by [class]: what the JSON
    decoder, the progress channel or the SQLite driver raise. *)
Inductive exn : Type :=
| FileNotFoundError (msg : string)
| EnvironmentError (msg : string)
| ValueError (msg : string)
| RuntimeError (msg : string)
| OverflowError (msg : string)
| OtherException (class msg : string).

(** What a [raise] throws: an exception of a class deriving from
    [Exception], or one of a class deriving from [BaseException] alone
    ([KeyboardInterrupt], [SystemExit], [GeneratorExit]), which
    [except Exception] does not catch. *)
Inductive thrown : Type :=
| Exception (e : exn)
| BaseException (class msg : string).

Coercion Exception : exn >-> thrown.

Inductive result (A : Type) : Type :=
| Ok (value : A)
| Raise (e : thrown).

Arguments Ok {A} value.
Arguments Raise {A} e.

(** The default of [sys.get_int_max_str_digits()]. *)
Definition max_str_digits : nat := 4300.

(** The number of decimal digits a string starts with. *)
Fixpoint leading_digits (s : string) : nat :=
  match s with
  | String c rest => if Py.isdecimal_char c then S (leading_digits rest) else 0
  | EmptyString => 0
  end.

Definition digit_limit_message (digits : nat) : string :=
  "Exceeds the limit (4300 digits) for integer string conversion: value has "
  ++ NilEmpty.string_of_uint (Nat.to_uint digits)
  ++ " digits; use sys.set_int_max_str_digits() to increase the limit".

(** The [ValueError] [int] raises on a string of digits it does not read.
    The interpreter (CPython 3.11) first counts the decimal digits the
    string starts with and refuses more than the limit, whatever follows
    them; otherwise the literal is invalid, and the message quotes it up to
    200 characters of its [repr] (which, digits being printable, is the
    string between single quotes). *)
Definition invalid_literal (s : string) : exn :=
  ValueError
    (if (max_str_digits <? leading_digits s)%nat
     then digit_limit_message (leading_digits s)
     else "invalid literal for int() with base 10: "
          ++ substring 0 200 ("'" ++ s ++ "'")).

(** [int(s)] as the code calls it, on a string that passed [isdigit], with
    the interpreter's limit on the length of a decimal literal at its
    default: the value when every character is a decimal digit and there
    are at most 4300 of them, a [ValueError] otherwise. *)
Definition int (s : string) : result Z :=
  if Py.isdecimal s && (String.length s <=? max_str_digits)%nat
  then Ok (Py.decimal_value 0 s)
  else Raise (invalid_literal s).

(** ** The catalogue store

    The table [files] of the SQLite catalogue: a surrogate [id] given by
    AUTOINCREMENT, and the five columns written by the ingestor, with
    [UNIQUE(full_path)]. *)

Module Sqlite.

(** One parameter tuple of the INSERT statement, in the order the ingestor
    builds it: [(full_path, drive_name, size, file_type, modified)]. *)
Record record : Type := mkRecord {
  full_path : string;
  drive : string;
  size : Z;
  file_type : string;
  modified_date : option string
}.

Record row : Type := mkRow {
  id : Z;
  fields : record
}.

(** The rows in rowid order, and the largest rowid ever handed out (the
    table's entry in [sqlite_sequence]). *)
Record table : Type := mkTable {
  rows : list row;
  sequence : Z
}.

(** [CREATE TABLE IF NOT EXISTS files (...)] on a file without the table. *)
Definition empty : table := {| rows := []; sequence := 0 |}.

Definition has_path (p : string) (r : row) : bool :=
  String.eqb (full_path (fields r)) p.

(** [INSERT OR REPLACE INTO files (...) VALUES (?, ?, ?, ?, ?)] for one
    tuple: the row that conflicts on [full_path] is deleted, and the tuple
    is inserted under a fresh rowid. *)
Definition insert_or_replace (t : table) (r : record) : table :=
  let fresh := sequence t + 1 in
  {| rows := filter (fun x => negb (has_path (full_path r) x)) (rows t)
             ++ [{| id := fresh; fields := r |}];
     sequence := fresh |}.

(** [executemany]: the statement once per tuple, in order. *)
Definition executemany (t : table) (batch : list record) : table :=
  fold_left insert_or_replace batch t.

(** A Python [int] binds to an SQLite INTEGER only when it fits in 64
    signed bits. *)
Definition fits_integer (z : Z) : bool :=
  (- 2 ^ 63 <=? z) && (z <? 2 ^ 63).

Definition bindable (batch : list record) : bool :=
  forallb (fun r => fits_integer (size r)) batch.

(** [SELECT ... WHERE full_path = p]. *)
Definition select (t : table) (p : string) : option record :=
  option_map fields (find (has_path p) (rows t)).

(** The catalogue records held by the table, without the surrogate ids. *)
Definition contents (t : table) : list record := map fields (rows t).

(** The constraint [UNIQUE(full_path)]. *)
Definition unique_paths (t : table) : Prop :=
  NoDup (map full_path (contents t)).

End Sqlite.

Import Sqlite.

(** ** The world and the external collaborators *)

(** Modelled from the spec: the progress fields of the base class
    [SubjectiveDataSource] (another package): ProgressState's total_count
    and processed_count, and the completion flag. *)
Record progress : Type := mkProgress {
  total_items : Z;
  processed_items : Z;
  fetch_completed : bool
}.

(** A call made to the outside. *)
Inductive event : Type :=
| EvMakedirs (path : string)        (* os.makedirs on the directory of [path] *)
| EvConnect (path : string)         (* sqlite3.connect and CREATE TABLE IF NOT EXISTS *)
| EvCommit (batch : list record)    (* executemany and commit *)
| EvClose                           (* conn.close *)
| EvSize (target : string)          (* rclone size target --json *)
| EvLsf (target : string)           (* rclone lsf target --recursive ... *)
| EvSetTotal (n : Z)                (* set_total_items *)
| EvSetProcessed (n : Z)            (* set_processed_items *)
| EvSetCompleted (b : bool)         (* set_fetch_completed *)
| EvEmit (p : progress).            (* _emit_progress *)

(** The state the run works on: the committed content of the catalogue file
    ([None] while the file has no table), and the progress fields. *)
Record world : Type := mkWorld {
  catalog : option table;
  state : progress
}.

(** What [json.loads(result.stdout or "{}")], [.get("count", 0)] and [int]
    make of the output of [rclone size]: a count, or the exception one of
    the three raises. *)
Inductive size_output : Type :=
| Count (n : Z)
| NoCount (e : exn).

Record size_process : Type := mkSize {
  size_returncode : Z;
  size_stdout : size_output;
  size_stderr : string
}.

Record lsf_process : Type := mkLsf {
  lsf_stdout : list string;   (* the lines, each with its line end *)
  lsf_returncode : Z;
  lsf_stderr : string
}.

(** A collaborator that may fail: [None] when it returns, and otherwise the
    exception it raises, of a class deriving from [Exception]. *)
Definition raises : Type := option exn.

(** What the outside answers.  A subprocess is taken to answer alike every
    time it is asked about the same scoped target: the remote does not
    change while it is listed. *)
Record environment : Type := mkEnv {
  config_exists : bool;                         (* os.path.exists(rclone_config_path) *)
  rclone_installed : bool;                      (* which("rclone") is not None *)
  config_sections : list (string * list (string * string));
                                                (* the sections ConfigParser reads *)
  rclone_size : string -> size_process;         (* by scoped target *)
  rclone_lsf : string -> lsf_process;           (* by scoped target *)
  emit_progress : option (progress -> raises)   (* [None]: no such attribute *)
}.

(** ** Computations *)

(** What running a method gives: the value returned or the exception
    raised, the world it leaves, and the calls it made to the outside. *)
Record outcome (A : Type) : Type := mkOutcome {
  returned : result A;
  after : world;
  calls : list event
}.

Arguments mkOutcome {A} returned after calls.
Arguments returned {A} o.
Arguments after {A} o.
Arguments calls {A} o.

Definition Run (A : Type) : Type := world -> outcome A.

Definition ret {A} (a : A) : Run A := fun w => mkOutcome (Ok a) w [].

Definition raise {A} (e : thrown) : Run A := fun w => mkOutcome (Raise e) w [].

Definition lift {A} (r : result A) : Run A := fun w => mkOutcome r w [].

Definition bind {A B} (m : Run A) (k : A -> Run B) : Run B :=
  fun w =>
    let o := m w in
    match returned o with
    | Ok a =>
        let o' := k a (after o) in
        mkOutcome (returned o') (after o') (calls o ++ calls o')
    | Raise e => mkOutcome (Raise e) (after o) (calls o)
    end.

Declare Scope run_scope.
Delimit Scope run_scope with run.
Notation "x <- m ;; k" := (bind m (fun x => k))
  (at level 100, m at next level, right associativity) : run_scope.
Notation "m ;; k" := (bind m (fun _ => k))
  (at level 100, right associativity) : run_scope.
Local Open Scope run_scope.

(** [try: body except Exception: handler]: what does not derive from
    [Exception] is not caught. *)
Definition try_except {A} (body : Run A) (handler : exn -> Run A) : Run A :=
  fun w =>
    let o := body w in
    match returned o with
    | Ok _ => o
    | Raise (Exception e) =>
        let o' := handler e (after o) in
        mkOutcome (returned o') (after o') (calls o ++ calls o')
    | Raise (BaseException _ _) => o
    end.

(** [try: body finally: cleanup]. *)
Definition try_finally {A} (body : Run A) (cleanup : Run unit) : Run A :=
  fun w =>
    let o := body w in
    let c := cleanup (after o) in
    mkOutcome (match returned c with
               | Ok _ => returned o
               | Raise e => Raise e
               end)
              (after c) (calls o ++ calls c).

(** [for x in items: acc = body(acc, x)]. *)
Fixpoint for_each {A S} (body : S -> A -> Run S) (items : list A) (acc : S) : Run S :=
  match items with
  | [] => ret acc
  | x :: rest => acc' <- body acc x ;; for_each body rest acc'
  end.

Definition call (e : event) : Run unit := fun w => mkOutcome (Ok tt) w [e].

Definition get_state : Run progress := fun w => mkOutcome (Ok (state w)) w [].

Definition put_state (p : progress) : Run unit :=
  fun w => mkOutcome (Ok tt) {| catalog := catalog w; state := p |} [].

Definition get_catalog : Run (option table) := fun w => mkOutcome (Ok (catalog w)) w [].

Definition put_catalog (t : table) : Run unit :=
  fun w => mkOutcome (Ok tt) {| catalog := Some t; state := state w |} [].

(** Modelled from the spec: the setters of the base class
    [SubjectiveDataSource] store their argument in the progress fields. *)
Definition set_total_items (n : Z) : Run unit :=
  call (EvSetTotal n) ;;
  p <- get_state ;;
  put_state {| total_items := n; processed_items := processed_items p;
               fetch_completed := fetch_completed p |}.

Definition set_processed_items (n : Z) : Run unit :=
  call (EvSetProcessed n) ;;
  p <- get_state ;;
  put_state {| total_items := total_items p; processed_items := n;
               fetch_completed := fetch_completed p |}.

Definition set_fetch_completed (b : bool) : Run unit :=
  call (EvSetCompleted b) ;;
  p <- get_state ;;
  put_state {| total_items := total_items p; processed_items := processed_items p;
               fetch_completed := b |}.

(** ** The data source *)

(** A value of [params]: absent (or [None]), a string, or a list. *)
Inductive param : Type :=
| PNone
| PStr (s : string)
| PList (items : list string).

Definition truthy (p : param) : bool :=
  match p with
  | PNone => false
  | PStr s => Py.nonempty s
  | PList [] => false
  | PList _ => true
  end.

(** [a or b]. *)
Definition por (a b : param) : param := if truthy a then a else b.

Record params : Type := mkParams {
  p_rclone_config_path : string;   (* as resolved from the parameter, RCLONE_CONFIG or the default *)
  p_sqlite_path : option string;
  p_drives : param;
  p_dirs : param;
  p_directories : param
}.

Record datasource : Type := mkDatasource {
  rclone_config_path : string;
  sqlite_path : string;
  drives : list string;
  directories : list string
}.

(** [[d.strip() for d in p.split(",") if d.strip()]] when [p] is a string;
    a list is kept as it is. *)
Definition comma_separated (p : param) : list string :=
  match p with
  | PStr s => filter Py.nonempty (map Py.strip_ws (Py.split Py.comma s))
  | PList items => items
  | PNone => []
  end.

(** The constructor, for the four parameters the pipeline reads.  The
    resolution of the configuration path and [os.path.expanduser] are left
    out. *)
Definition __init__ (ps : params) : datasource :=
  let drives_param := comma_separated (por (p_drives ps) (PList [])) in
  let dirs_param :=
    comma_separated (por (por (p_dirs ps) (p_directories ps)) (PList [])) in
  {| rclone_config_path := p_rclone_config_path ps;
     sqlite_path :=
       match p_sqlite_path ps with
       | Some s => if Py.nonempty s then s else "my_files.sqlite"
       | None => "my_files.sqlite"
       end;
     drives := drives_param;
     directories := match dirs_param with [] => [EmptyString] | _ => dirs_param end |}.

(** A scan target: (remote name, directory). *)
Definition scan_target : Type := (string * string)%type.

(** What [fetch] returns; [remotes] is built from a set, so its order is not
    fixed by the code: the order of first occurrence is taken here. *)
Record summary : Type := mkSummary {
  db_path : string;
  total_indexed : Z;
  remotes : list string
}.

Section Methods.

Variable self : datasource.
Variable env : environment.

(** The attribute [_emit_progress] of the object: [None] when the object
    has none, and otherwise what calling it raises, if anything, on the
    progress fields.  What it raises need not derive from [Exception]. *)
Variable _emit_progress : option (progress -> option thrown).

Definition _validate_config : Run unit :=
  if negb (config_exists env) then
    raise (FileNotFoundError ("rclone config not found: " ++ rclone_config_path self))
  else if negb (rclone_installed env) then
    raise (EnvironmentError "rclone binary not found on PATH.")
  else ret tt.

Definition _load_remotes : Run (list (string * list (string * string))) :=
  ret (config_sections env).

Definition _resolve_targets (remotes : list (string * list (string * string)))
  : result (list scan_target) :=
  let keys := map fst remotes in
  let selected_drives := match drives self with [] => keys | _ => drives self end in
  let missing := filter (fun d => negb (Py.member d keys)) selected_drives in
  match missing with
  | [] =>
      Ok (flat_map (fun drive => map (fun directory => (drive, directory)) (directories self))
                   selected_drives)
  | _ => Raise (ValueError ("Requested remotes not in config: " ++ Py.join ", " missing))
  end.

Definition _init_db : Run unit :=
  call (EvConnect (sqlite_path self)) ;;
  c <- get_catalog ;;
  match c with
  | None => put_catalog Sqlite.empty
  | Some _ => ret tt
  end.

(** The scoped target [remote:directory] of both subprocess calls. *)
Definition clean (dir_path : string) : string :=
  if Py.nonempty dir_path then Py.strip (Py.is_char Py.slash) dir_path else EmptyString.

Definition scoped_target (drive_name dir_path : string) : string :=
  let clean_dir := clean dir_path in
  if Py.nonempty clean_dir then drive_name ++ ":" ++ clean_dir else drive_name ++ ":".

Definition _count_remote_items (drive_name dir_path : string) : Run Z :=
  let target := scoped_target drive_name dir_path in
  call (EvSize target) ;;
  let result := rclone_size env target in
  if negb (size_returncode result =? 0) then
    let stderr := Py.strip_ws (size_stderr result) in
    raise (RuntimeError (if Py.nonempty stderr then stderr else "Unknown rclone size error"))
  else
    match size_stdout result with
    | Count n => ret n
    | NoCount e => raise e
    end.

Definition _count_all_items (targets : list scan_target) : Run Z :=
  for_each
    (fun total '(drive_name, dir_path) =>
       try_except
         (n <- _count_remote_items drive_name dir_path ;; ret (total + n))
         (fun _ => ret total))
    targets 0.

Definition _emit_progress_safe_with : Run unit :=
  try_except
    (match _emit_progress with
     | Some emit =>
         p <- get_state ;;
         call (EvEmit p) ;;
         match emit p with
         | Some e => raise e
         | None => ret tt
         end
     | None => ret tt
     end)
    (fun _ => ret tt).

Definition _update_progress_with (processed : Z) : Run unit :=
  set_processed_items processed ;;
  _emit_progress_safe_with.

Definition _flush_batch (batch : list record) : Run unit :=
  c <- get_catalog ;;
  match c with
  | None => raise (OtherException "sqlite3.OperationalError" "no such table: files")
  | Some t =>
      if Sqlite.bindable batch then
        call (EvCommit batch) ;;
        put_catalog (Sqlite.executemany t batch)
      else raise (OverflowError "Python int too large to convert to SQLite INTEGER")
  end.

Definition batch_size : Z := 500.

Definition len {A} (l : list A) : Z := Z.of_nat (List.length l).

(** The tuple one line of the listing gives, [None] when the line is
    skipped. *)
Definition line_record (drive_name clean_dir line : string) : result (option record) :=
  let parts := Py.split Py.tab (Py.rstrip (Py.is_char Py.newline) line) in
  match parts with
  | [] => Ok None
  | rel_path :: _ =>
      if negb (Py.nonempty rel_path) then Ok None
      else
        let file_type := if 1 <? len parts then nth 1 parts EmptyString else EmptyString in
        let parsed :=
          if (2 <? len parts) && Py.isdigit (nth 2 parts EmptyString)
          then int (nth 2 parts EmptyString) else Ok 0 in
        let modified := if 3 <? len parts then Some (nth 3 parts EmptyString) else None in
        let prefix :=
          if Py.nonempty clean_dir
          then Py.rstrip (Py.is_char Py.slash) clean_dir ++ "/" else EmptyString in
        let full_path := drive_name ++ ":" ++ prefix ++ rel_path in
        match parsed with
        | Ok size => Ok (Some (mkRecord full_path drive_name size file_type modified))
        | Raise e => Raise e
        end
  end.

(** The body of the loop over the lines; the loop carries [batch] and
    [processed]. *)
Definition index_line_with (drive_name clean_dir : string)
    (vars : list record * Z) (line : string) : Run (list record * Z) :=
  let '(batch, processed) := vars in
  parsed <- lift (line_record drive_name clean_dir line) ;;
  match parsed with
  | None => ret (batch, processed)
  | Some r =>
      let batch := (batch ++ [r])%list in
      batch <- (if batch_size <=? len batch
                then _flush_batch batch ;; ret []
                else ret batch) ;;
      let processed := processed + 1 in
      _update_progress_with processed ;;
      ret (batch, processed)
  end.

Definition _index_target_with (drive_name dir_path : string) (processed : Z) : Run Z :=
  let clean_dir := clean dir_path in
  let target := scoped_target drive_name dir_path in
  call (EvLsf target) ;;
  let proc := rclone_lsf env target in
  vars <- for_each (index_line_with drive_name clean_dir) (lsf_stdout proc) ([], processed) ;;
  let '(batch, processed) := vars in
  (if negb (lsf_returncode proc =? 0) then
     let stderr := Py.strip_ws (lsf_stderr proc) in
     raise (RuntimeError ("rclone lsf failed for " ++ target ++ ": " ++ stderr))
   else ret tt) ;;
  (match batch with
   | [] => ret tt
   | _ => _flush_batch batch
   end) ;;
  ret processed.

Definition fetch_with : Run summary :=
  _validate_config ;;
  remotes <- _load_remotes ;;
  targets <- lift (_resolve_targets remotes) ;;
  match targets with
  | [] => raise (ValueError "No rclone remotes found to index.")
  | _ =>
      call (EvMakedirs (sqlite_path self)) ;;
      _init_db ;;
      total_items <- _count_all_items targets ;;
      set_total_items total_items ;;
      set_processed_items 0 ;;
      _emit_progress_safe_with ;;
      processed <- try_finally
        (for_each (fun processed '(drive_name, dir_path) =>
                     _index_target_with drive_name dir_path processed)
                  targets 0)
        (call EvClose) ;;
      set_fetch_completed true ;;
      _emit_progress_safe_with ;;
      ret {| db_path := sqlite_path self;
             total_indexed := processed;
             remotes := nodup string_dec (map fst targets) |}
  end.

End Methods.

(** ** The methods in an environment

    The progress channel of an environment fails with exceptions deriving
    from [Exception]; the methods below are the ones above for an object
    whose [_emit_progress] is that channel. *)

Definition channel (env : environment) : option (progress -> option thrown) :=
  option_map (fun emit p => option_map Exception (emit p)) (emit_progress env).

Definition _emit_progress_safe (env : environment) : Run unit :=
  _emit_progress_safe_with (channel env).

Definition _update_progress (env : environment) (processed : Z) : Run unit :=
  _update_progress_with (channel env) processed.

Definition index_line (env : environment) (drive_name clean_dir : string)
    (vars : list record * Z) (line : string) : Run (list record * Z) :=
  index_line_with (channel env) drive_name clean_dir vars line.

Definition _index_target (env : environment) (drive_name dir_path : string)
    (processed : Z) : Run Z :=
  _index_target_with env (channel env) drive_name dir_path processed.

Definition fetch (self : datasource) (env : environment) : Run summary :=
  fetch_with self env (channel env).

(** ** Reading a run *)

(** The batches committed, in order. *)
Definition commits (l : list event) : list (list record) :=
  flat_map (fun e => match e with EvCommit batch => [batch] | _ => [] end) l.

(** The records written to the catalogue, in order. *)
Definition committed (l : list event) : list record := List.concat (commits l).

(** The targets listed, in order. *)
Definition lsf_calls (l : list event) : list string :=
  flat_map (fun e => match e with EvLsf target => [target] | _ => [] end) l.

(** The successive values given to processed_count. *)
Definition processed_values (l : list event) : list Z :=
  flat_map (fun e => match e with EvSetProcessed n => [n] | _ => [] end) l.

(** The successive values given to total_count. *)
Definition total_values (l : list event) : list Z :=
  flat_map (fun e => match e with EvSetTotal n => [n] | _ => [] end) l.



Definition is_commit (e : event) : bool :=
  match e with EvCommit _ => true | _ => false end.

(** The calls that create, open, write or close the catalogue file. *)
Definition touches_catalog (e : event) : bool :=
  match e with
  | EvMakedirs _ | EvConnect _ | EvCommit _ | EvClose => true
  | _ => false
  end.

(** The calls the loop over the lines makes. *)
Definition ingest_event (e : event) : bool :=
  match e with
  | EvCommit _ | EvSetProcessed _ | EvEmit _ => true
  | _ => false
  end.

(** [n+1, n+2, ..., n+k]. *)
Definition counting (n : Z) (k : nat) : list Z :=
  map (fun i => n + Z.of_nat i) (seq 1 k).

(** ** Reading a listing *)

(** The fields of a line, as the loop splits it. *)
Definition fields_of (line : string) : list string :=
  Py.split Py.tab (Py.rstrip (Py.is_char Py.newline) line).

(** The line has a non-empty first field: it is not skipped. *)
Definition is_record_line (line : string) : bool :=
  Py.nonempty (hd EmptyString (fields_of line)).

(** The size the loop reads on a line. *)
Definition size_of (line : string) : result Z :=
  let parts := fields_of line in
  if (2 <? len parts) && Py.isdigit (nth 2 parts EmptyString)
  then int (nth 2 parts EmptyString) else Ok 0.

(** The size field of the line, when there is one, is either not made of
    digits (and read as 0) or a decimal number [int] reads and an SQLite
    INTEGER holds. *)
Definition size_field_ok (line : string) : bool :=
  let parts := fields_of line in
  if (2 <? len parts) && Py.isdigit (nth 2 parts EmptyString) then
    Py.isdecimal (nth 2 parts EmptyString)
    && (String.length (nth 2 parts EmptyString) <=? max_str_digits)%nat
    && (Py.decimal_value 0 (nth 2 parts EmptyString) <? 2 ^ 63)
  else true.

(** A well-formed record: a line with a relative path and a usable size. *)
Definition well_formed (line : string) : bool :=
  is_record_line line && size_field_ok line.

(** A line the loop gets through: a well-formed record, or a skipped line. *)
Definition harmless (line : string) : bool :=
  negb (is_record_line line) || size_field_ok line.

(** The directory prefix of a full path. *)
Definition prefix_of (clean_dir : string) : string :=
  if Py.nonempty clean_dir
  then Py.rstrip (Py.is_char Py.slash) clean_dir ++ "/" else EmptyString.

(** The tuples a listing gives, in order. *)
Definition records_of (drive_name clean_dir : string) (lines : list string) : list record :=
  flat_map (fun line =>
              match line_record drive_name clean_dir line with
              | Ok (Some r) => [r]
              | _ => []
              end) lines.

(** The scoped target of a scan target. *)
Definition scoped (t : scan_target) : string := scoped_target (fst t) (snd t).

(** The listing of a target, as rclone gives it. *)
Definition listing (env : environment) (t : scan_target) : lsf_process :=
  rclone_lsf env (scoped_target (fst t) (snd t)).

(** The tuples the listing of a target gives. *)
Definition target_records (env : environment) (t : scan_target) : list record :=
  records_of (fst t) (clean (snd t)) (lsf_stdout (listing env t)).

(** The records all the targets list. *)
Definition all_records (env : environment) (targets : list scan_target) : list record :=
  flat_map (target_records env) targets.

(** The number of lines with a relative path in the listing of a target. *)
Definition record_lines (env : environment) (t : scan_target) : nat :=
  List.length (filter is_record_line (lsf_stdout (listing env t))).

Definition nat_sum (l : list nat) : nat := fold_right Nat.add 0%nat l.

(** The listing of a target goes through: harmless lines, exit status 0. *)
Definition listing_ok (env : environment) (t : scan_target) : Prop :=
  Forall (fun line => harmless line = true) (lsf_stdout (listing env t))
  /\ lsf_returncode (listing env t) = 0.

(** The error a failed listing raises. *)
Definition listing_failed (env : environment) (t : scan_target) : exn :=
  RuntimeError ("rclone lsf failed for " ++ scoped_target (fst t) (snd t) ++ ": "
                ++ Py.strip_ws (lsf_stderr (listing env t))).

(** The length of the longest prefix made of complete batches. *)
Definition complete (n : nat) : nat := (500 * (n / 500))%nat.

(** What a target adds to the total: its count, or 0 when counting fails. *)
Definition counted (env : environment) (t : scan_target) : Z :=
  let result := rclone_size env (scoped_target (fst t) (snd t)) in
  if size_returncode result =? 0 then
    match size_stdout result with
    | Count n => n
    | NoCount _ => 0
    end
  else 0.

Definition sum (l : list Z) : Z := fold_right Z.add 0 l.

(** ** The steps of a run *)

(** The emission a progress update makes, if the object has an emitter. *)
Definition emit_events (env : environment) (p : progress) : list event :=
  match emit_progress env with
  | Some _ => [EvEmit p]
  | None => []
  end.

Definition with_processed (n : Z) (w : world) : world :=
  {| catalog := catalog w;
     state := {| total_items := total_items (state w); processed_items := n;
                 fetch_completed := fetch_completed (state w) |} |}.

Definition with_total (n : Z) (w : world) : world :=
  {| catalog := catalog w;
     state := {| total_items := n; processed_items := processed_items (state w);
                 fetch_completed := fetch_completed (state w) |} |}.

Definition with_completed (b : bool) (w : world) : world :=
  {| catalog := catalog w;
     state := {| total_items := total_items (state w);
                 processed_items := processed_items (state w);
                 fetch_completed := b |} |}.

Definition with_catalog (t : table) (w : world) : world :=
  {| catalog := Some t; state := state w |}.

(** The error of a flush that does not go through. *)
Definition flush_failure (c : option table) : exn :=
  match c with
  | None => OtherException "sqlite3.OperationalError" "no such table: files"
  | Some _ => OverflowError "Python int too large to convert to SQLite INTEGER"
  end.

(** What one turn of the loop over the lines does, from the loop variables
    [batch] and [processed] in world [w]. *)
Inductive line_step (env : environment) (drive_name clean_dir : string)
    (batch : list record) (processed : Z) (w : world) (line : string)
  : outcome (list record * Z) -> Prop :=
| step_crash (e : thrown) :
    line_record drive_name clean_dir line = Raise e ->
    line_step env drive_name clean_dir batch processed w line
      (mkOutcome (Raise e) w [])
| step_skip :
    line_record drive_name clean_dir line = Ok None ->
    line_step env drive_name clean_dir batch processed w line
      (mkOutcome (Ok (batch, processed)) w [])
| step_keep (r : record) :
    line_record drive_name clean_dir line = Ok (Some r) ->
    len (batch ++ [r]) < batch_size ->
    line_step env drive_name clean_dir batch processed w line
      (mkOutcome (Ok ((batch ++ [r])%list, processed + 1))
         (with_processed (processed + 1) w)
         (EvSetProcessed (processed + 1)
          :: emit_events env (state (with_processed (processed + 1) w))))
| step_flush (r : record) (t : table) :
    line_record drive_name clean_dir line = Ok (Some r) ->
    batch_size <= len (batch ++ [r]) ->
    catalog w = Some t ->
    Sqlite.bindable (batch ++ [r]) = true ->
    line_step env drive_name clean_dir batch processed w line
      (mkOutcome (Ok ([], processed + 1))
         (with_processed (processed + 1)
            (with_catalog (Sqlite.executemany t (batch ++ [r])) w))
         (EvCommit (batch ++ [r]) :: EvSetProcessed (processed + 1)
          :: emit_events env (state (with_processed (processed + 1) w))))
| step_flush_fails (r : record) :
    line_record drive_name clean_dir line = Ok (Some r) ->
    batch_size <= len (batch ++ [r]) ->
    catalog w = None \/ Sqlite.bindable (batch ++ [r]) = false ->
    line_step env drive_name clean_dir batch processed w line
      (mkOutcome (Raise (flush_failure (catalog w))) w []).

(** The loop of [fetch] over the targets. *)
Definition index_targets (env : environment) (targets : list scan_target) (processed : Z)
  : Run Z :=
  for_each (fun processed '(drive_name, dir_path) =>
              _index_target env drive_name dir_path processed)
           targets processed.

(** The table a connection works on: the one of the file, or the one
    [_init_db] creates. *)
Definition opened (c : option table) : table :=
  match c with
  | Some t => t
  | None => Sqlite.empty
  end.

(** The world once [_init_db] has run. *)
Definition connect (w : world) : world :=
  match catalog w with
  | Some _ => w
  | None => with_catalog Sqlite.empty w
  end.

(** The world in which the first target is listed. *)
Definition started (env : environment) (targets : list scan_target) (w : world) : world :=
  with_processed 0 (with_total (sum (map (counted env) targets)) (connect w)).

(** The calls [fetch] makes before the first target is listed. *)
Definition prologue (self : datasource) (env : environment) (targets : list scan_target)
    (w : world) : list event :=
  ([EvMakedirs (sqlite_path self); EvConnect (sqlite_path self)]
   ++ map (fun t => EvSize (scoped t)) targets
   ++ [EvSetTotal (sum (map (counted env) targets)); EvSetProcessed 0]
   ++ emit_events env
        (state (with_processed 0 (with_total (sum (map (counted env) targets)) (connect w)))))%list.

(** What [fetch] does once the targets are resolved and there is at least
    one. *)
Definition fetch_targets (self : datasource) (env : environment)
    (targets : list scan_target) (w : world) : outcome summary :=
  let o := index_targets env targets 0 (started env targets w) in
  match returned o with
  | Ok processed =>
      mkOutcome
        (Ok {| db_path := sqlite_path self;
               total_indexed := processed;
               remotes := nodup string_dec (map fst targets) |})
        (with_completed true (after o))
        (prologue self env targets w ++ calls o
         ++ [EvClose; EvSetCompleted true]
         ++ emit_events env (state (with_completed true (after o))))
  | Raise e =>
      mkOutcome (Raise e) (after o) (prologue self env targets w ++ calls o ++ [EvClose])
  end.

(** ** The target resolver *)

(** The two errors of the target resolver. *)
Definition no_targets : exn := ValueError "No rclone remotes found to index.".

Definition unknown_remote (missing : list string) : exn :=
  ValueError ("Requested remotes not in config: " ++ Py.join ", " missing).

(** The requested names the registry does not have. *)
Definition missing_remotes (self : datasource) (env : environment) : list string :=
  filter (fun d => negb (Py.member d (map fst (config_sections env)))) (drives self).

(** The remotes selected: the requested ones, or all of the registry. *)
Definition selected (self : datasource) (registry : list (string * list (string * string)))
  : list string :=
  match drives self with
  | [] => map fst registry
  | _ => drives self
  end.

(** The product of remotes and directories, remotes in the outer loop. *)
Definition product (remotes directories : list string) : list scan_target :=
  flat_map (fun drive => map (fun directory => (drive, directory)) directories) remotes.

(** ** Reading the catalogue *)

(** The last tuple of a batch written under a path, if any. *)
Fixpoint last_write (batch : list record) (p : string) : option record :=
  match batch with
  | [] => None
  | r :: rest =>
      match last_write rest p with
      | Some r' => Some r'
      | None => if String.eqb (full_path r) p then Some r else None
      end
  end.

(** ** Comparing two runs *)

Section Related.

(** Two computations are compared from worlds related by [Rw], looking at
    the calls that [keep] selects. *)
Variable Rw : world -> world -> Prop.
Variable keep : event -> bool.

Definition related {A} (m1 m2 : Run A) : Prop :=
  forall w1 w2, Rw w1 w2 ->
    returned (m1 w1) = returned (m2 w2)
    /\ Rw (after (m1 w1)) (after (m2 w2))
    /\ filter keep (calls (m1 w1)) = filter keep (calls (m2 w2)).

End Related.

(** Both worlds have a catalogue table. *)
Definition both_opened (w1 w2 : world) : Prop :=
  catalog w1 <> None /\ catalog w2 <> None.


(** ** Sample data *)

(** A line of a listing: the fields joined by the separator, and the line
    end. *)
Definition line (fields : list string) : string :=
  Py.join (String Py.tab EmptyString) fields ++ String Py.newline EmptyString.

(** Two remotes: [a] lists two files and counts two items; anything else
    fails to count and fails to list after one line.  The progress channel
    fails on the first update. *)
Definition sample_env : environment :=
  {| config_exists := true;
     rclone_installed := true;
     config_sections := [("a", [("type", "drive")]); ("b", [("type", "s3")])];
     rclone_size := fun target =>
       if String.eqb target "a:" then mkSize 0 (Count 2) EmptyString
       else mkSize 1 (Count 0) " directory not found ";
     rclone_lsf := fun target =>
       if String.eqb target "a:"
       then mkLsf [line ["x.txt"; "f"; "12"; "2024-01-01 10:00:00"]; line ["docs/y.txt"]]
                  0 EmptyString
       else mkLsf [line ["z.txt"; "f"; "5"]] 3 " directory not found ";
     emit_progress := Some (fun p =>
       if processed_items p =? 1
       then Some (OtherException "BrokenPipeError" "progress channel closed")
       else None) |}.

Definition sample_world : world :=
  {| catalog := Some Sqlite.empty;
     state := {| total_items := 0; processed_items := 0; fetch_completed := false |} |}.

(** A world without a catalogue file. *)
Definition fresh_world : world :=
  {| catalog := None;
     state := {| total_items := 0; processed_items := 0; fetch_completed := false |} |}.

(** A remote whose listing is a blank line, a line with a relative path and
    nothing else, and a complete line. *)
Definition short_lines_env : environment :=
  {| config_exists := true;
     rclone_installed := true;
     config_sections := [("a", [])];
     rclone_size := fun _ => mkSize 0 (Count 2) EmptyString;
     rclone_lsf := fun _ =>
       mkLsf [line []; line ["docs/y.txt"]; line ["x.txt"; "f"; "12"; "2024-01-01 10:00:00"]]
             0 EmptyString;
     emit_progress := None |}.

(** A request for the remotes [a] and [x]. *)
Definition unknown_remote_request : datasource :=
  __init__ {| p_rclone_config_path := "/home/u/.config/rclone/rclone.conf";
              p_sqlite_path := None;
              p_drives := PStr "a, x";
              p_dirs := PNone;
              p_directories := PNone |}.

(** A request for all the remotes of the registry. *)
Definition all_remotes_request : datasource :=
  __init__ {| p_rclone_config_path := "/home/u/.config/rclone/rclone.conf";
              p_sqlite_path := None;
              p_drives := PNone;
              p_dirs := PNone;
              p_directories := PNone |}.

(** A request for [b] then [a], at the root, with a catalogue of its
    own. *)
Definition reversed_request : datasource :=
  __init__ {| p_rclone_config_path := "/home/u/.config/rclone/rclone.conf";
              p_sqlite_path := Some "catalog/files.sqlite";
              p_drives := PList ["b"; "a"];
              p_dirs := PStr "/";
              p_directories := PNone |}.

(** A request for the remote [a] alone. *)
Definition single_request : datasource :=
  __init__ {| p_rclone_config_path := "/home/u/.config/rclone/rclone.conf";
              p_sqlite_path := None;
              p_drives := PStr "a";
              p_dirs := PNone;
              p_directories := PNone |}.

(** A listing of [N] files with pairwise distinct names. *)
Definition numbered (k : nat) : string :=
  String (ascii_of_nat (48 + k / 64))
         (String (ascii_of_nat (48 + k mod 64)) EmptyString).

Definition generated_listing (N : nat) : list string :=
  map (fun k => line [numbered k; "f"; "1"]) (seq 0 N).

Definition generated_env (N : nat) : environment :=
  {| config_exists := true;
     rclone_installed := true;
     config_sections := [("r", [])];
     rclone_size := fun _ => mkSize 0 (Count (Z.of_nat N)) EmptyString;
     rclone_lsf := fun _ => mkLsf (generated_listing N) 0 EmptyString;
     emit_progress := None |}.

(** What a run on the generated listing of [N] files returns, the number of
    rows it leaves in a catalogue that was empty, and the sizes of the
    batches it commits. *)
Definition boundary_run (N : nat) : result Z * nat * list nat :=
  let o := _index_target (generated_env N) "r" EmptyString 0 sample_world in
  (returned o, List.length (rows (opened (catalog (after o)))),
   map (@List.length record) (commits (calls o))).

(** A remote whose second file has the superscript two for a size. *)
Definition superscript_env : environment :=
  {| config_exists := true;
     rclone_installed := true;
     config_sections := [("a", [])];
     rclone_size := fun _ => mkSize 0 (Count 3) EmptyString;
     rclone_lsf := fun _ =>
       mkLsf [line ["x.txt"; "f"; "12"];
              line ["y.txt"; "f"; String "178"%char EmptyString];
              line ["z.txt"; "f"; "7"]]
             0 EmptyString;
     emit_progress := None |}.


(** ** More of the data source *)

(** No character of [s] is [c]. *)
Definition free_of (c : ascii) (s : string) : bool :=
  Py.all_chars (fun x => negb (Ascii.eqb x c)) s.

(** A field of a listing line: neither separator nor line end in it. *)
Definition plain_field (s : string) : bool :=
  free_of Py.tab s && free_of Py.newline s.

(** The calls the listing ingestor makes. *)
Definition listing_call (e : event) : bool :=
  match e with
  | EvLsf _ | EvCommit _ | EvSetProcessed _ | EvEmit _ => true
  | _ => false
  end.




(** A batch [executemany] is given: never empty, never above the batch
    size. *)
Definition sized (batch : list record) : Prop := 0 < len batch <= batch_size.

(** [s.startswith(prefix)]. *)
Fixpoint startswith (prefix s : string) : bool :=
  match prefix, s with
  | EmptyString, _ => true
  | String a prefix', String b s' => Ascii.eqb a b && startswith prefix' s'
  | String _ _, EmptyString => false
  end.

Definition backslash : ascii := "092"%char.

(** The characters of ["/\\"]. *)
Definition is_separator (c : ascii) : bool :=
  Ascii.eqb c Py.slash || Ascii.eqb c backslash.

Section NormalizePath.

(** The library functions [_normalize_path] calls: [urlparse], of which the
    code reads [netloc] and [path], [unquote] and [os.path.normpath]. *)
Variable urlparse : string -> string * string.
Variable unquote : string -> string.
Variable normpath : string -> string.

Definition _normalize_path (path : string) : string :=
  if negb (Py.nonempty path) then path
  else if startswith "file://" path then
    let parsed := urlparse path in
    let local_path :=
      if Py.nonempty (fst parsed) then "//" ++ fst parsed ++ snd parsed
      else snd parsed in
    normpath (unquote (Py.lstrip is_separator local_path))
  else path.

End NormalizePath.
(** ** Strings *)

Lemma split_not_nil (sep : ascii) (s : string) : Py.split sep s <> [].
Proof.
  induction s as [|c rest IH]; simpl; [discriminate|].
  destruct (Ascii.eqb c sep); [discriminate|].
  destruct (Py.split sep rest); discriminate.
Qed.

Lemma lstrip_head (p : ascii -> bool) (c : ascii) (s : string) :
  p c = false -> Py.lstrip p (String c s) = String c s.
Proof. intros H; simpl; now rewrite H. Qed.

Lemma rstrip_keeps_head (p : ascii -> bool) (c : ascii) (s : string) :
  p c = false -> exists kept, Py.rstrip p (String c s) = String c kept.
Proof.
  intros H; simpl.
  destruct (Py.rstrip p s); [rewrite H|]; eauto.
Qed.

Lemma lstrip_shape (p : ascii -> bool) (s : string) :
  Py.lstrip p s = EmptyString
  \/ exists c rest, Py.lstrip p s = String c rest /\ p c = false.
Proof.
  induction s as [|c rest IH]; simpl; [now left|].
  destruct (p c) eqn:E; [exact IH|right; eauto].
Qed.

Lemma rstrip_idempotent (p : ascii -> bool) (s : string) :
  Py.rstrip p (Py.rstrip p s) = Py.rstrip p s.
Proof.
  induction s as [|c rest IH]; simpl; [reflexivity|].
  destruct (Py.rstrip p rest) as [|k kept] eqn:E.
  - destruct (p c) eqn:Ec; simpl; [reflexivity|now rewrite Ec].
  - simpl. simpl in IH.
    destruct (Py.rstrip p kept) as [|k' kept'] eqn:E'.
    + destruct (p k); [discriminate|]. now rewrite IH.
    + now rewrite IH.
Qed.

Lemma strip_no_trailing (p : ascii -> bool) (s : string) :
  Py.rstrip p (Py.strip p s) = Py.strip p s.
Proof. apply rstrip_idempotent. Qed.

Lemma strip_no_leading (p : ascii -> bool) (s : string) :
  Py.lstrip p (Py.strip p s) = Py.strip p s.
Proof.
  unfold Py.strip.
  destruct (lstrip_shape p s) as [E|(c & rest & E & Hc)]; rewrite E.
  - reflexivity.
  - destruct (rstrip_keeps_head p c rest Hc) as [kept Hk].
    rewrite Hk. now apply lstrip_head.
Qed.

Lemma clean_is_strip (dir_path : string) :
  clean dir_path = Py.strip (Py.is_char Py.slash) dir_path.
Proof. now destruct dir_path. Qed.

Lemma decimal_value_nonneg (s : string) (acc : Z) :
  0 <= acc -> Py.all_chars Py.isdecimal_char s = true -> 0 <= Py.decimal_value acc s.
Proof.
  revert acc; induction s as [|c rest IH];
    cbn [Py.decimal_value Py.all_chars]; intros acc Hacc H; [exact Hacc|].
  apply andb_prop in H as [Hc Hrest].
  apply IH; [|exact Hrest].
  unfold Py.isdecimal_char in Hc. apply andb_prop in Hc as [Hlo _].
  apply Nat.leb_le in Hlo. lia.
Qed.

Lemma isdecimal_nonneg (s : string) :
  Py.isdecimal s = true -> 0 <= Py.decimal_value 0 s.
Proof.
  intros H. apply decimal_value_nonneg; [lia|].
  destruct s; [discriminate|exact H].
Qed.

(** ** The tuple of a line *)

Lemma line_record_unfold (drive_name clean_dir line : string) :
  line_record drive_name clean_dir line =
  if is_record_line line then
    match size_of line with
    | Ok size =>
        Ok (Some (mkRecord
                    (drive_name ++ ":" ++ prefix_of clean_dir ++ hd EmptyString (fields_of line))
                    drive_name size
                    (if 1 <? len (fields_of line)
                     then nth 1 (fields_of line) EmptyString else EmptyString)
                    (if 3 <? len (fields_of line)
                     then Some (nth 3 (fields_of line) EmptyString) else None)))
    | Raise e => Raise e
    end
  else Ok None.
Proof.
  unfold line_record, is_record_line, size_of, prefix_of, fields_of.
  destruct (Py.split Py.tab (Py.rstrip (Py.is_char Py.newline) line)) as [|rel_path rest] eqn:E.
  - now apply split_not_nil in E.
  - cbn [hd]. destruct (Py.nonempty rel_path); reflexivity.
Qed.

Lemma line_record_skipped (drive_name clean_dir line : string) :
  is_record_line line = false -> line_record drive_name clean_dir line = Ok None.
Proof. intros H. now rewrite line_record_unfold, H. Qed.

Lemma size_of_ok (line : string) :
  size_field_ok line = true ->
  exists size, size_of line = Ok size /\ fits_integer size = true.
Proof.
  unfold size_field_ok, size_of.
  destruct ((2 <? len (fields_of line)) && Py.isdigit (nth 2 (fields_of line) EmptyString)).
  - intros H. apply andb_prop in H as [Hdec Hlt].
    unfold int. rewrite Hdec. apply andb_prop in Hdec as [Hdec _].
    eexists; split; [reflexivity|].
    unfold fits_integer. apply andb_true_intro; split; [|exact Hlt].
    apply Z.leb_le. apply isdecimal_nonneg in Hdec. lia.
  - intros _. exists 0. split; reflexivity.
Qed.

Lemma line_record_well_formed (drive_name clean_dir line : string) :
  well_formed line = true ->
  exists r, line_record drive_name clean_dir line = Ok (Some r)
            /\ fits_integer (size r) = true.
Proof.
  unfold well_formed. intros H. apply andb_prop in H as [Hrec Hsize].
  destruct (size_of_ok line Hsize) as (z & Hz & Hfits).
  rewrite line_record_unfold, Hrec, Hz. eexists; split; [reflexivity|exact Hfits].
Qed.

Lemma harmless_cases (line : string) :
  harmless line = true ->
  is_record_line line = false \/ well_formed line = true.
Proof.
  unfold harmless, well_formed. destruct (is_record_line line); simpl; auto.
Qed.

Lemma well_formed_harmless (line : string) :
  well_formed line = true -> harmless line = true.
Proof.
  unfold harmless, well_formed. destruct (is_record_line line); simpl; auto.
Qed.

Lemma line_record_some (drive_name clean_dir line : string) (r : record) :
  line_record drive_name clean_dir line = Ok (Some r) -> is_record_line line = true.
Proof.
  rewrite line_record_unfold. destruct (is_record_line line); [reflexivity|discriminate].
Qed.

Lemma line_record_none (drive_name clean_dir line : string) :
  line_record drive_name clean_dir line = Ok None -> is_record_line line = false.
Proof.
  rewrite line_record_unfold. destruct (is_record_line line); [|reflexivity].
  destruct (size_of line); discriminate.
Qed.

Lemma records_of_app (drive_name clean_dir : string) (l1 l2 : list string) :
  records_of drive_name clean_dir (l1 ++ l2)
  = (records_of drive_name clean_dir l1 ++ records_of drive_name clean_dir l2)%list.
Proof. apply flat_map_app. Qed.

Lemma records_of_well_formed (drive_name clean_dir : string) (lines : list string) :
  Forall (fun line => well_formed line = true) lines ->
  List.length (records_of drive_name clean_dir lines) = List.length lines.
Proof.
  induction 1 as [|line lines H _ IH]; [reflexivity|].
  destruct (line_record_well_formed drive_name clean_dir line H) as (r & Hr & _).
  unfold records_of in *. cbn [flat_map]. rewrite Hr. cbn. now rewrite IH.
Qed.

(** ** Running the methods *)

Lemma emit_progress_safe_run (env : environment) (w : world) :
  _emit_progress_safe env w = mkOutcome (Ok tt) w (emit_events env (state w)).
Proof.
  unfold _emit_progress_safe, _emit_progress_safe_with, channel, emit_events, try_except.
  destruct (emit_progress env) as [emit|]; [|reflexivity].
  unfold bind, get_state, call; cbn.
  destruct (emit (state w)); reflexivity.
Qed.

Lemma set_processed_items_run (n : Z) (w : world) :
  set_processed_items n w = mkOutcome (Ok tt) (with_processed n w) [EvSetProcessed n].
Proof. reflexivity. Qed.

Lemma set_total_items_run (n : Z) (w : world) :
  set_total_items n w = mkOutcome (Ok tt) (with_total n w) [EvSetTotal n].
Proof. reflexivity. Qed.

Lemma set_fetch_completed_run (b : bool) (w : world) :
  set_fetch_completed b w = mkOutcome (Ok tt) (with_completed b w) [EvSetCompleted b].
Proof. reflexivity. Qed.

Lemma update_progress_run (env : environment) (n : Z) (w : world) :
  _update_progress env n w
  = mkOutcome (Ok tt) (with_processed n w)
      (EvSetProcessed n :: emit_events env (state (with_processed n w))).
Proof.
  unfold _update_progress, _update_progress_with, bind.
  rewrite set_processed_items_run; cbn [returned after calls].
  change (_emit_progress_safe_with (channel env)) with (_emit_progress_safe env).
  rewrite emit_progress_safe_run. reflexivity.
Qed.

Lemma flush_batch_run (batch : list record) (w : world) (t : table) :
  catalog w = Some t -> bindable batch = true ->
  _flush_batch batch w
  = mkOutcome (Ok tt) (with_catalog (executemany t batch) w) [EvCommit batch].
Proof.
  intros Hc Hb. unfold _flush_batch, bind, get_catalog; cbn.
  rewrite Hc, Hb. reflexivity.
Qed.

Lemma flush_batch_fails (batch : list record) (w : world) :
  catalog w = None \/ bindable batch = false ->
  _flush_batch batch w = mkOutcome (Raise (flush_failure (catalog w))) w [].
Proof.
  intros H. unfold _flush_batch, bind, get_catalog; cbn.
  destruct (catalog w) as [t|]; [|reflexivity].
  destruct H as [H|H]; [discriminate|]. now rewrite H.
Qed.

Lemma index_line_step (env : environment) (drive_name clean_dir : string)
    (batch : list record) (processed : Z) (w : world) (line : string) :
  line_step env drive_name clean_dir batch processed w line
    (index_line env drive_name clean_dir (batch, processed) line w).
Proof.
  unfold index_line, index_line_with.
  change (_update_progress_with (channel env)) with (_update_progress env).
  unfold bind, lift; cbn [returned after calls].
  destruct (line_record drive_name clean_dir line) as [[r|]|e] eqn:E.
  - destruct (batch_size <=? len (batch ++ [r])) eqn:Hfull.
    + apply Z.leb_le in Hfull.
      destruct (catalog w) as [t|] eqn:Hc.
      * destruct (bindable (batch ++ [r])) eqn:Hb.
        -- rewrite (flush_batch_run _ _ t Hc Hb); cbn [returned after calls ret].
           rewrite update_progress_run; cbn [returned after calls app].
           rewrite app_nil_r.
           now apply (step_flush env drive_name clean_dir batch processed w line r t).
        -- rewrite (flush_batch_fails (batch ++ [r]) w (or_intror Hb));
             cbn [returned after calls].
           eapply step_flush_fails; eauto.
      * rewrite (flush_batch_fails (batch ++ [r]) w (or_introl Hc));
          cbn [returned after calls].
        eapply step_flush_fails; eauto.
    + apply Z.leb_gt in Hfull.
      cbn [returned after calls ret].
      rewrite update_progress_run; cbn [returned after calls app].
      rewrite app_nil_r. now apply step_keep.
  - cbn. now apply step_skip.
  - now apply step_crash.
Qed.

(** ** Reading the calls of a composed run *)

Lemma commits_app (l1 l2 : list event) :
  commits (l1 ++ l2) = (commits l1 ++ commits l2)%list.
Proof. apply flat_map_app. Qed.

Lemma committed_app (l1 l2 : list event) :
  committed (l1 ++ l2) = (committed l1 ++ committed l2)%list.
Proof. unfold committed. now rewrite commits_app, concat_app. Qed.

Lemma lsf_calls_app (l1 l2 : list event) :
  lsf_calls (l1 ++ l2) = (lsf_calls l1 ++ lsf_calls l2)%list.
Proof. apply flat_map_app. Qed.

Lemma processed_values_app (l1 l2 : list event) :
  processed_values (l1 ++ l2) = (processed_values l1 ++ processed_values l2)%list.
Proof. apply flat_map_app. Qed.

Lemma total_values_app (l1 l2 : list event) :
  total_values (l1 ++ l2) = (total_values l1 ++ total_values l2)%list.
Proof. apply flat_map_app. Qed.

Lemma commits_emit (env : environment) (p : progress) : commits (emit_events env p) = [].
Proof. unfold emit_events. now destruct (emit_progress env). Qed.

Lemma lsf_calls_emit (env : environment) (p : progress) : lsf_calls (emit_events env p) = [].
Proof. unfold emit_events. now destruct (emit_progress env). Qed.

Lemma processed_values_emit (env : environment) (p : progress) :
  processed_values (emit_events env p) = [].
Proof. unfold emit_events. now destruct (emit_progress env). Qed.

Lemma total_values_emit (env : environment) (p : progress) :
  total_values (emit_events env p) = [].
Proof. unfold emit_events. now destruct (emit_progress env). Qed.

Lemma committed_commit (batch : list record) (l : list event) :
  committed (EvCommit batch :: l) = (batch ++ committed l)%list.
Proof. reflexivity. Qed.

Lemma committed_set_processed (n : Z) (l : list event) :
  committed (EvSetProcessed n :: l) = committed l.
Proof. reflexivity. Qed.

Lemma committed_emit (env : environment) (p : progress) : committed (emit_events env p) = [].
Proof. unfold committed. now rewrite commits_emit. Qed.

Lemma bind_unfold {A B} (m : Run A) (k : A -> Run B) (w : world) :
  bind m k w
  = match returned (m w) with
    | Ok a =>
        mkOutcome (returned (k a (after (m w)))) (after (k a (after (m w))))
                  (calls (m w) ++ calls (k a (after (m w))))
    | Raise e => mkOutcome (Raise e) (after (m w)) (calls (m w))
    end.
Proof. reflexivity. Qed.

Lemma for_each_cons {A S} (body : S -> A -> Run S) (x : A) (rest : list A) (acc : S) (w : world) :
  for_each body (x :: rest) acc w
  = match returned (body acc x w) with
    | Ok acc' =>
        mkOutcome (returned (for_each body rest acc' (after (body acc x w))))
                  (after (for_each body rest acc' (after (body acc x w))))
                  (calls (body acc x w)
                   ++ calls (for_each body rest acc' (after (body acc x w))))
    | Raise e => mkOutcome (Raise e) (after (body acc x w)) (calls (body acc x w))
    end.
Proof. reflexivity. Qed.

Lemma executemany_app (t : table) (b1 b2 : list record) :
  executemany t (b1 ++ b2) = executemany (executemany t b1) b2.
Proof. apply fold_left_app. Qed.

Lemma bindable_app (b1 b2 : list record) :
  bindable (b1 ++ b2) = bindable b1 && bindable b2.
Proof. apply forallb_app. Qed.

Lemma len_app {A} (l1 l2 : list A) : len (l1 ++ l2) = len l1 + len l2.
Proof. unfold len. rewrite length_app. lia. Qed.

Lemma len_nonneg {A} (l : list A) : 0 <= len l.
Proof. unfold len. lia. Qed.

(** ** The loop over the lines of a listing that goes through *)

(** Case analysis on one turn of the loop. *)
Ltac line_cases env drive_name clean_dir batch n w line :=
  let o := fresh "o" in
  let Ho := fresh "Ho" in
  let Hs := fresh "Hs" in
  pose proof (index_line_step env drive_name clean_dir batch n w line) as Hs;
  remember (index_line env drive_name clean_dir (batch, n) line w) as o eqn:Ho;
  clear Ho; destruct Hs.

Lemma index_lines_run (env : environment) (drive_name clean_dir : string) :
  forall (lines : list string) (batch : list record) (n : Z) (w : world) (t : table),
    catalog w = Some t ->
    Forall (fun line => harmless line = true) lines ->
    bindable batch = true ->
    len batch < batch_size ->
    exists (full : list (list record)) (rest : list record),
      let o := for_each (index_line env drive_name clean_dir) lines (batch, n) w in
      returned o = Ok (rest, n + len (records_of drive_name clean_dir lines))
      /\ commits (calls o) = full
      /\ (batch ++ records_of drive_name clean_dir lines)%list = (List.concat full ++ rest)%list
      /\ Forall (fun b => len b = batch_size) full
      /\ len rest < batch_size
      /\ bindable rest = true
      /\ catalog (after o) = Some (executemany t (List.concat full))
      /\ total_items (state (after o)) = total_items (state w).
Proof.
  induction lines as [|line lines IH]; intros batch n w t Hc Hlines Hb Hlen.
  - exists [], batch. cbn. rewrite app_nil_r, Z.add_0_r. repeat split; auto.
  - inversion Hlines as [|? ? Hline Hrest]; subst.
    rewrite for_each_cons.
    unfold records_of; cbn [flat_map]; fold (records_of drive_name clean_dir lines).
    destruct (harmless_cases line Hline) as [Hskip|Hwf].
    + pose proof (line_record_skipped drive_name clean_dir line Hskip) as Hr.
      rewrite Hr.
      line_cases env drive_name clean_dir batch n w line; try congruence.
      cbn [returned after calls app].
      destruct (IH batch n w t Hc Hrest Hb Hlen) as (full & rest & Hall).
      exists full, rest. exact Hall.
    + destruct (line_record_well_formed drive_name clean_dir line Hwf) as (r & Hr & Hfits).
      rewrite Hr.
      assert (Hb' : bindable (batch ++ [r]) = true).
      { rewrite bindable_app, Hb. cbn. now rewrite Hfits. }
      line_cases env drive_name clean_dir batch n w line; try congruence;
        match goal with
        | H : line_record _ _ _ = Ok (Some ?r0) |- _ =>
            assert (r0 = r) by congruence; subst r0
        end.
      * cbn [returned after calls].
        destruct (IH (batch ++ [r])%list (n + 1) (with_processed (n + 1) w) t Hc Hrest Hb')
          as (full & rest & Hret & Hcom & Hsplit & Hfull & Hrestlen & Hrestb & Hcat & Htot);
          [assumption|].
        exists full, rest. cbn zeta in *. cbn [returned after calls].
        rewrite Hret, Hcat, Htot. cbn [app commits flat_map].
        rewrite commits_app, commits_emit, Hcom. cbn [app].
        rewrite <- Hsplit, <- app_assoc. cbn [app].
        repeat split; auto.
        f_equal. f_equal. unfold len; cbn [List.length]. lia.
      * match goal with H : catalog w = Some _ |- _ => rewrite Hc in H; injection H as <- end.
        cbn [returned after calls].
        destruct (IH [] (n + 1)
                     (with_processed (n + 1) (with_catalog (executemany t (batch ++ [r])) w))
                     (executemany t (batch ++ [r])) eq_refl Hrest eq_refl)
          as (full & rest & Hret & Hcom & Hsplit & Hfull & Hrestlen & Hrestb & Hcat & Htot).
        { unfold len, batch_size; cbn. lia. }
        assert (Hlen500 : len (batch ++ [r]) = batch_size).
        { rewrite len_app in *. unfold len in *; cbn [List.length] in *. lia. }
        exists ((batch ++ [r])%list :: full), rest. cbn zeta in *. cbn [returned after calls].
        rewrite Hret, Hcat, Htot. cbn [app commits flat_map concat].
        rewrite commits_app, commits_emit, Hcom. cbn [app].
        cbn [app] in Hsplit. rewrite Hsplit. cbn [List.concat].
        rewrite <- ?executemany_app, <- ?app_assoc. cbn [app].
        repeat split; auto.
        f_equal. f_equal. unfold len; cbn [List.length]. lia.
      * match goal with H : _ \/ _ |- _ => destruct H; congruence end.
Qed.

(** ** Counting *)

Lemma counting_zero (n : Z) : counting n 0 = [].
Proof. reflexivity. Qed.

Lemma counting_succ (n : Z) (k : nat) :
  counting n (S k) = (n + 1) :: counting (n + 1) k.
Proof.
  unfold counting. cbn [seq map]. f_equal.
  rewrite <- seq_shift, map_map. apply map_ext. intros i. lia.
Qed.

Lemma counting_app (n : Z) (k1 k2 : nat) :
  (counting n k1 ++ counting (n + Z.of_nat k1) k2)%list = counting n (k1 + k2).
Proof.
  revert n; induction k1 as [|k1 IH]; intros n.
  - cbn [counting Nat.add]. rewrite counting_zero. cbn. f_equal. lia.
  - cbn [Nat.add]. rewrite !counting_succ. cbn [app]. f_equal.
    rewrite <- IH. do 2 f_equal. lia.
Qed.

(** ** The loop over the lines of any listing *)

Ltac splits := repeat match goal with |- _ /\ _ => split end.

Lemma ingest_event_emit (env : environment) (p : progress) :
  Forall (fun e => ingest_event e = true) (emit_events env p).
Proof. unfold emit_events. destruct (emit_progress env); repeat constructor. Qed.

Lemma records_of_cons (drive_name clean_dir line : string) (lines : list string) :
  records_of drive_name clean_dir (line :: lines)
  = (match line_record drive_name clean_dir line with
     | Ok (Some r) => [r]
     | _ => []
     end ++ records_of drive_name clean_dir lines)%list.
Proof. reflexivity. Qed.

Lemma index_lines_any (env : environment) (drive_name clean_dir : string) :
  forall (lines : list string) (batch : list record) (n : Z) (w : world),
    let o := for_each (index_line env drive_name clean_dir) lines (batch, n) w in
    Forall (fun e => ingest_event e = true) (calls o)
    /\ total_items (state (after o)) = total_items (state w)
    /\ (forall t, catalog w = Some t ->
                  catalog (after o) = Some (executemany t (committed (calls o))))
    /\ exists k : nat,
         processed_values (calls o) = counting n k
         /\ (processed_items (state w) = n ->
             processed_items (state (after o)) = n + Z.of_nat k)
         /\ (forall batch' n', returned o = Ok (batch', n') ->
               n' = n + Z.of_nat k
               /\ k = List.length (filter is_record_line lines)
               /\ k = List.length (records_of drive_name clean_dir lines)
               /\ (batch ++ records_of drive_name clean_dir lines)%list
                  = (committed (calls o) ++ batch')%list).
Proof.
  induction lines as [|line lines IH]; intros batch n w; cbn zeta.
  - cbn. splits; auto.
    exists 0%nat. cbn. splits; try lia; try reflexivity.
    intros ? ? [= <- <-]. splits; try lia; try reflexivity. now rewrite app_nil_r.
  - rewrite for_each_cons, records_of_cons.
    line_cases env drive_name clean_dir batch n w line; cbn [returned after calls].
    + splits; auto. exists 0%nat. cbn. splits; try lia; try reflexivity; intros; discriminate.
    + destruct (IH batch n w) as (Hev & Htot & Hcat & k & Hvals & Hstate & Hret).
      cbn [app]. splits; auto.
      exists k. splits; auto. intros b' n' Hb'. destruct (Hret b' n' Hb') as (-> & Hk & Hk' & Hsplit).
      rewrite H. cbn [filter app]. rewrite (line_record_none _ _ _ H). auto.
    + destruct (IH (batch ++ [r])%list (n + 1) (with_processed (n + 1) w))
        as (Hev & Htot & Hcat & k & Hvals & Hstate & Hret).
      splits.
      * constructor; [reflexivity|]. apply Forall_app; split; [apply ingest_event_emit|exact Hev].
      * exact Htot.
      * intros t Ht. rewrite (Hcat t Ht). cbn [app].
        now rewrite committed_set_processed, committed_app, committed_emit.
      * exists (S k). splits.
        -- cbn [app processed_values flat_map].
           fold (processed_values
                   (emit_events env (state (with_processed (n + 1) w))
                    ++ calls (for_each (index_line env drive_name clean_dir) lines
                                (batch ++ [r], n + 1) (with_processed (n + 1) w)))%list).
           rewrite processed_values_app, processed_values_emit, Hvals, counting_succ.
           reflexivity.
        -- intros _. rewrite Hstate by reflexivity. lia.
        -- intros b' n' Hb'. destruct (Hret b' n' Hb') as (-> & Hk & Hk' & Hsplit).
           rewrite H. cbn [filter app List.length]. rewrite (line_record_some _ _ _ _ H).
           cbn [List.length]. splits; try lia.
           rewrite committed_set_processed, committed_app, committed_emit. cbn [app].
           rewrite <- Hsplit, <- app_assoc. reflexivity.
    + destruct (IH [] (n + 1)
                   (with_processed (n + 1) (with_catalog (executemany t (batch ++ [r])) w)))
        as (Hev & Htot & Hcat & k & Hvals & Hstate & Hret).
      splits.
      * constructor; [reflexivity|]. constructor; [reflexivity|].
        apply Forall_app; split; [apply ingest_event_emit|exact Hev].
      * exact Htot.
      * intros t' Ht'. assert (t' = t) by congruence; subst t'.
        rewrite (Hcat _ eq_refl). cbn [app].
        rewrite committed_commit, committed_set_processed, committed_app, committed_emit.
        cbn [app]. now rewrite (executemany_app t (batch ++ [r])).
      * exists (S k). splits.
        -- cbn [app processed_values flat_map].
           fold (processed_values
                   (emit_events env (state (with_processed (n + 1) w))
                    ++ calls (for_each (index_line env drive_name clean_dir) lines
                                ([], n + 1)
                                (with_processed (n + 1)
                                   (with_catalog (executemany t (batch ++ [r])) w))))%list).
           rewrite processed_values_app, processed_values_emit, Hvals, counting_succ.
           reflexivity.
        -- intros _. rewrite Hstate by reflexivity. lia.
        -- intros b' n' Hb'. destruct (Hret b' n' Hb') as (-> & Hk & Hk' & Hsplit).
           rewrite H. cbn [filter app List.length]. rewrite (line_record_some _ _ _ _ H).
           cbn [List.length]. splits; try lia.
           cbn [app]. rewrite committed_commit, committed_set_processed, committed_app, committed_emit.
           cbn [app] in *. rewrite <- !app_assoc, <- Hsplit. reflexivity.
    + splits; auto. exists 0%nat. cbn. splits; try lia; try reflexivity; intros; discriminate.
Qed.

(** ** Listing one target *)

Lemma index_target_unfold (env : environment) (drive_name dir_path : string) (n : Z) (w : world) :
  _index_target env drive_name dir_path n w =
  let t := (drive_name, dir_path) in
  let target := scoped_target drive_name dir_path in
  let o := for_each (index_line env drive_name (clean dir_path))
                    (lsf_stdout (listing env t)) ([], n) w in
  match returned o with
  | Raise e => mkOutcome (Raise e) (after o) (EvLsf target :: calls o)
  | Ok (batch, processed) =>
      if negb (lsf_returncode (listing env t) =? 0) then
        mkOutcome (Raise (listing_failed env t)) (after o) (EvLsf target :: calls o)
      else
        match batch with
        | [] => mkOutcome (Ok processed) (after o) (EvLsf target :: calls o)
        | _ =>
            let f := _flush_batch batch (after o) in
            mkOutcome (match returned f with
                       | Ok _ => Ok processed
                       | Raise e => Raise e
                       end)
                      (after f) (EvLsf target :: calls o ++ calls f)
        end
  end.
Proof.
  unfold _index_target, _index_target_with, listing, listing_failed; cbn [fst snd].
  change (index_line_with (channel env)) with (index_line env).
  rewrite bind_unfold. cbn [call returned after calls app].
  rewrite bind_unfold.
  destruct (for_each _ _ _ w) as [[[batch processed]|e] w' c];
    cbn [returned after calls]; [|reflexivity].
  rewrite bind_unfold.
  destruct (negb (lsf_returncode _ =? 0)); cbn [raise ret returned after calls].
  - now rewrite app_nil_r.
  - rewrite bind_unfold.
    destruct batch as [|r batch]; cbn [ret returned after calls app].
    + now rewrite !app_nil_r.
    + destruct (_flush_batch (r :: batch) w') as [[u|e] w'' c'];
        cbn [returned after calls]; now rewrite ?app_nil_r.
Qed.

Lemma ingest_no_lsf (l : list event) :
  Forall (fun e => ingest_event e = true) l -> lsf_calls l = [] /\ total_values l = [].
Proof.
  induction 1 as [|e l He _ [IH1 IH2]]; [now split|].
  destruct e; try discriminate; cbn; auto.
Qed.

(** The complete batches are the longest prefix whose length is a multiple
    of the batch size. *)
Lemma batches_split (recs : list record) (full : list (list record)) (rest : list record) :
  recs = (List.concat full ++ rest)%list ->
  Forall (fun b => len b = batch_size) full ->
  len rest < batch_size ->
  List.concat full = firstn (complete (List.length recs)) recs
  /\ rest = skipn (complete (List.length recs)) recs.
Proof.
  intros -> Hfull Hrest.
  assert (Hlen : List.length (List.concat full) = (500 * List.length full)%nat).
  { clear Hrest. induction Hfull as [|b full Hb _ IH]; [reflexivity|].
    cbn [List.concat]. rewrite length_app, IH.
    unfold len, batch_size in Hb. cbn [List.length]. lia. }
  assert (Hq : complete (List.length (List.concat full ++ rest))
               = List.length (List.concat full)).
  { unfold complete. rewrite length_app, Hlen. f_equal.
    symmetry. apply (Nat.div_unique _ 500 _ (List.length rest)).
    - unfold len, batch_size in Hrest. lia.
    - reflexivity. }
  rewrite Hq. split.
  - rewrite firstn_app, Nat.sub_diag, firstn_all. cbn. now rewrite app_nil_r.
  - rewrite skipn_app, Nat.sub_diag, skipn_all. reflexivity.
Qed.

Lemma lsf_calls_ingest (l : list event) :
  Forall (fun e => ingest_event e = true) l -> lsf_calls l = [].
Proof. intros H. now apply ingest_no_lsf. Qed.

Lemma total_values_ingest (l : list event) :
  Forall (fun e => ingest_event e = true) l -> total_values l = [].
Proof. intros H. now apply ingest_no_lsf. Qed.

Lemma commits_lsf (target : string) (l : list event) :
  commits (EvLsf target :: l) = commits l.
Proof. reflexivity. Qed.

Lemma committed_lsf (target : string) (l : list event) :
  committed (EvLsf target :: l) = committed l.
Proof. reflexivity. Qed.

Lemma index_target_succeeds (env : environment) (tg : scan_target) (n : Z) (w : world) (t : table) :
  catalog w = Some t ->
  listing_ok env tg ->
  let o := _index_target env (fst tg) (snd tg) n w in
  let recs := target_records env tg in
  returned o = Ok (n + len recs)
  /\ catalog (after o) = Some (executemany t recs)
  /\ committed (calls o) = recs
  /\ exists full rest,
       commits (calls o) = (full ++ match rest with [] => [] | _ => [rest] end)%list
       /\ recs = (List.concat full ++ rest)%list
       /\ Forall (fun b => len b = batch_size) full
       /\ len rest < batch_size.
Proof.
  intros Hc [Hlines Hrc]. destruct tg as [drive_name dir_path]. cbn [fst snd] in *.
  cbn zeta. rewrite index_target_unfold. cbn zeta.
  unfold target_records; cbn [fst snd].
  destruct (index_lines_run env drive_name (clean dir_path) _ [] n w t Hc Hlines eq_refl)
    as (full & rest & Hret & Hcom & Hsplit & Hfull & Hrest & Hb & Hcat & _).
  { unfold len, batch_size; cbn; lia. }
  cbn zeta in Hret, Hcom, Hcat. cbn [app] in Hsplit.
  rewrite Hret, Hrc. cbn [Z.eqb negb].
  unfold committed.
  destruct rest as [|r rest]; cbn [returned after calls].
  - rewrite app_nil_r in Hsplit. rewrite commits_lsf, Hcat, <- Hsplit, Hcom. splits; auto.
    exists full, []. rewrite !app_nil_r. splits; auto.
  - rewrite (flush_batch_run (r :: rest) _ _ Hcat Hb).
    cbn [returned after calls catalog with_catalog].
    rewrite commits_lsf, <- executemany_app, <- Hsplit, commits_app, Hcom, concat_app.
    cbn [commits flat_map app List.concat]. rewrite app_nil_r. splits; auto.
    exists full, (r :: rest). splits; auto.
Qed.

Lemma index_target_fails (env : environment) (tg : scan_target) (n : Z) (w : world) (t : table) :
  catalog w = Some t ->
  Forall (fun line => harmless line = true) (lsf_stdout (listing env tg)) ->
  lsf_returncode (listing env tg) <> 0 ->
  let o := _index_target env (fst tg) (snd tg) n w in
  let recs := target_records env tg in
  let kept := firstn (complete (List.length recs)) recs in
  returned o = Raise (listing_failed env tg)
  /\ catalog (after o) = Some (executemany t kept)
  /\ committed (calls o) = kept
  /\ Forall (fun b => len b = batch_size) (commits (calls o)).
Proof.
  intros Hc Hlines Hrc. destruct tg as [drive_name dir_path]. cbn [fst snd] in *.
  cbn zeta. rewrite index_target_unfold. cbn zeta.
  unfold target_records; cbn [fst snd].
  destruct (index_lines_run env drive_name (clean dir_path) _ [] n w t Hc Hlines eq_refl)
    as (full & rest & Hret & Hcom & Hsplit & Hfull & Hrest & Hb & Hcat & _).
  { unfold len, batch_size; cbn; lia. }
  cbn zeta in Hret, Hcom, Hcat. cbn [app] in Hsplit.
  destruct (batches_split _ _ _ Hsplit Hfull Hrest) as [Hkept _].
  rewrite Hret. apply Z.eqb_neq in Hrc. rewrite Hrc. cbn [negb returned after calls].
  unfold committed. rewrite commits_lsf, Hcat, <- Hkept, Hcom. splits; auto.
Qed.

(** ** The catalogue store *)

Lemma find_app {A} (f : A -> bool) (l1 l2 : list A) :
  find f (l1 ++ l2) = match find f l1 with Some x => Some x | None => find f l2 end.
Proof.
  induction l1 as [|x l1 IH]; cbn; [reflexivity|]. now destruct (f x).
Qed.

Lemma has_path_eq (p : string) (x : row) :
  has_path p x = true <-> full_path (fields x) = p.
Proof. unfold has_path. apply String.eqb_eq. Qed.

Lemma find_filter_other (p q : string) (l : list row) :
  q <> p ->
  find (has_path p) (filter (fun x => negb (has_path q x)) l) = find (has_path p) l.
Proof.
  intros Hqp. induction l as [|x l IH]; cbn [filter find]; [reflexivity|].
  destruct (has_path q x) eqn:Eq; cbn [negb find].
  - destruct (has_path p x) eqn:Ep; [|exact IH].
    apply has_path_eq in Eq, Ep. congruence.
  - now rewrite IH.
Qed.

Lemma find_filter_same (p : string) (l : list row) :
  find (has_path p) (filter (fun x => negb (has_path p x)) l) = None.
Proof.
  induction l as [|x l IH]; cbn [filter find]; [reflexivity|].
  destruct (has_path p x) eqn:E; cbn [negb find]; [exact IH|]. now rewrite E.
Qed.

Lemma select_insert (t : table) (r : record) (p : string) :
  select (insert_or_replace t r) p
  = if String.eqb (full_path r) p then Some r else select t p.
Proof.
  unfold select, insert_or_replace; cbn [rows]. rewrite find_app.
  destruct (String.eqb_spec (full_path r) p) as [<-|Hneq].
  - rewrite find_filter_same. cbn [find]. unfold has_path at 1; cbn [fields].
    now rewrite String.eqb_refl.
  - rewrite (find_filter_other p (full_path r)) by exact Hneq.
    destruct (find (has_path p) (rows t)); [reflexivity|].
    cbn [find]. unfold has_path; cbn [fields].
    destruct (String.eqb_spec (full_path r) p); [contradiction|reflexivity].
Qed.

Lemma select_executemany (batch : list record) (t : table) (p : string) :
  select (executemany t batch) p
  = match last_write batch p with
    | Some r => Some r
    | None => select t p
    end.
Proof.
  revert t; induction batch as [|r batch IH]; intros t; [reflexivity|].
  cbn [executemany fold_left last_write]. fold (executemany (insert_or_replace t r) batch).
  rewrite IH, select_insert.
  destruct (last_write batch p); [reflexivity|].
  now destruct (String.eqb (full_path r) p).
Qed.

Lemma last_write_app (b1 b2 : list record) (p : string) :
  last_write (b1 ++ b2) p
  = match last_write b2 p with
    | Some r => Some r
    | None => last_write b1 p
    end.
Proof.
  induction b1 as [|r b1 IH]; cbn [app last_write].
  - now destruct (last_write b2 p).
  - rewrite IH. now destruct (last_write b2 p).
Qed.

Lemma in_filter_paths (q : string) (l : list row) (p : string) :
  In p (map full_path (map fields (filter (fun x => negb (has_path q x)) l))) ->
  In p (map full_path (map fields l)) /\ p <> q.
Proof.
  induction l as [|x l IH]; cbn [filter map In]; [tauto|].
  destruct (has_path q x) eqn:E; cbn [negb map In].
  - intros H. destruct (IH H). tauto.
  - intros [<-|H].
    + split; [now left|]. unfold has_path in E. now apply String.eqb_neq in E.
    + destruct (IH H). tauto.
Qed.

Lemma nodup_filter_paths (q : string) (l : list row) :
  NoDup (map full_path (map fields l)) ->
  NoDup (map full_path (map fields (filter (fun x => negb (has_path q x)) l))).
Proof.
  induction l as [|x l IH]; cbn [filter map]; [auto|].
  intros H. inversion H as [|? ? Hnotin Hnodup]; subst.
  destruct (has_path q x); cbn [negb map]; [now apply IH|].
  constructor; [|now apply IH].
  intros Hin. apply in_filter_paths in Hin. tauto.
Qed.

Lemma insert_unique (t : table) (r : record) :
  unique_paths t -> unique_paths (insert_or_replace t r).
Proof.
  unfold unique_paths, contents, insert_or_replace; cbn [rows].
  intros H. rewrite !map_app. cbn [map fields].
  apply NoDup_app.
  - now apply nodup_filter_paths.
  - repeat constructor. intros [].
  - intros p Hp [<-|[]]. apply in_filter_paths in Hp. tauto.
Qed.

Lemma executemany_unique (batch : list record) (t : table) :
  unique_paths t -> unique_paths (executemany t batch).
Proof.
  revert t; induction batch as [|r batch IH]; intros t H; [exact H|].
  apply IH. now apply insert_unique.
Qed.

Lemma empty_unique : unique_paths Sqlite.empty.
Proof. constructor. Qed.

Lemma in_contents_select (t : table) (r : record) :
  unique_paths t -> (In r (contents t) <-> select t (full_path r) = Some r).
Proof.
  unfold unique_paths, contents, select.
  induction (rows t) as [|x l IH]; cbn [map In find]; intros Hu.
  - split; [tauto|discriminate].
  - inversion Hu as [|? ? Hnotin Hnodup]; subst.
    destruct (has_path (full_path r) x) eqn:E.
    + apply has_path_eq in E. cbn [option_map]. split.
      * intros [Hx|Hin]; [now rewrite Hx|].
        exfalso. apply Hnotin. rewrite E. apply in_map. exact Hin.
      * intros [= Hx]. now left.
    + rewrite <- (IH Hnodup). split; [|tauto].
      intros [Hx|Hin]; [|exact Hin].
      subst r. unfold has_path in E. now rewrite String.eqb_refl in E.
Qed.

Lemma unique_contents (t : table) : unique_paths t -> NoDup (contents t).
Proof. apply NoDup_map_inv. Qed.

(** Two tables that answer every query alike hold the same records. *)
Lemma same_select_same_contents (t1 t2 : table) :
  unique_paths t1 -> unique_paths t2 ->
  (forall p, select t1 p = select t2 p) ->
  Permutation (contents t1) (contents t2).
Proof.
  intros H1 H2 Hsel.
  apply NoDup_Permutation; [now apply unique_contents|now apply unique_contents|].
  intros r. rewrite (in_contents_select t1 r H1), (in_contents_select t2 r H2).
  now rewrite Hsel.
Qed.

Lemma executemany_twice_select (t : table) (batch : list record) (p : string) :
  select (executemany (executemany t batch) batch) p = select (executemany t batch) p.
Proof.
  rewrite !select_executemany. now destruct (last_write batch p).
Qed.

(** Writing the same tuples a second time changes neither the records of
    the table nor their number. *)
Lemma executemany_twice (t : table) (batch : list record) :
  unique_paths t ->
  Permutation (contents (executemany (executemany t batch) batch))
              (contents (executemany t batch)).
Proof.
  intros Hu. apply same_select_same_contents.
  - now do 2 apply executemany_unique.
  - now apply executemany_unique.
  - intros p. apply executemany_twice_select.
Qed.

Lemma filter_absent (p : string) (l : list row) :
  find (has_path p) l = None -> filter (fun x => negb (has_path p x)) l = l.
Proof.
  induction l as [|x l IH]; cbn [find filter]; [reflexivity|].
  destruct (has_path p x); [discriminate|]. intros H. cbn [negb]. now rewrite IH.
Qed.

Lemma select_none (t : table) (p : string) :
  select t p = None <-> find (has_path p) (rows t) = None.
Proof.
  unfold select. destruct (find (has_path p) (rows t)); cbn; split; congruence.
Qed.

Lemma insert_fresh_length (t : table) (r : record) :
  select t (full_path r) = None ->
  List.length (rows (insert_or_replace t r)) = S (List.length (rows t)).
Proof.
  intros H. apply select_none in H.
  unfold insert_or_replace; cbn [rows].
  rewrite (filter_absent _ _ H), length_app. cbn. lia.
Qed.

(** Tuples under pairwise distinct paths, none of them in the table, add
    one row each. *)
Lemma executemany_fresh_length (batch : list record) (t : table) :
  NoDup (map full_path batch) ->
  (forall r, In r batch -> select t (full_path r) = None) ->
  List.length (rows (executemany t batch)) = (List.length (rows t) + List.length batch)%nat.
Proof.
  revert t; induction batch as [|r batch IH]; intros t Hnd Hfresh.
  - cbn. lia.
  - cbn [executemany fold_left]. fold (executemany (insert_or_replace t r) batch).
    inversion Hnd as [|? ? Hnotin Hnd']; subst.
    rewrite IH; [|exact Hnd'|].
    + rewrite insert_fresh_length by (apply Hfresh; now left). cbn [List.length]. lia.
    + intros r' Hr'. rewrite select_insert.
      destruct (String.eqb_spec (full_path r) (full_path r')) as [E|_].
      * exfalso. apply Hnotin. rewrite E. now apply in_map.
      * apply Hfresh. now right.
Qed.

(** ** Listing any target *)

Lemma flush_batch_cases (batch : list record) (w : world) :
  (exists t, catalog w = Some t
             /\ _flush_batch batch w
                = mkOutcome (Ok tt) (with_catalog (executemany t batch) w) [EvCommit batch])
  \/ _flush_batch batch w = mkOutcome (Raise (flush_failure (catalog w))) w [].
Proof.
  destruct (catalog w) as [t|] eqn:Hc.
  - destruct (bindable batch) eqn:Hb.
    + left. exists t. split; [reflexivity|]. now apply flush_batch_run.
    + right. rewrite <- Hc. apply flush_batch_fails. now right.
  - right. rewrite <- Hc. apply flush_batch_fails. now left.
Qed.

Lemma lsf_calls_lsf (target : string) (l : list event) :
  lsf_calls (EvLsf target :: l) = target :: lsf_calls l.
Proof. reflexivity. Qed.

Lemma index_target_any (env : environment) (tg : scan_target) (n : Z) (w : world) :
  let o := _index_target env (fst tg) (snd tg) n w in
  lsf_calls (calls o) = [scoped tg]
  /\ total_values (calls o) = []
  /\ total_items (state (after o)) = total_items (state w)
  /\ (forall t, catalog w = Some t ->
                catalog (after o) = Some (executemany t (committed (calls o))))
  /\ exists k : nat,
       processed_values (calls o) = counting n k
       /\ (processed_items (state w) = n ->
           processed_items (state (after o)) = n + Z.of_nat k)
       /\ (forall n', returned o = Ok n' ->
             n' = n + Z.of_nat k
             /\ k = record_lines env tg
             /\ k = List.length (target_records env tg)
             /\ committed (calls o) = target_records env tg).
Proof.
  destruct tg as [drive_name dir_path]. cbn [fst snd]. cbn zeta.
  rewrite index_target_unfold. cbn zeta.
  unfold scoped, record_lines, target_records; cbn [fst snd].
  destruct (index_lines_any env drive_name (clean dir_path)
              (lsf_stdout (listing env (drive_name, dir_path))) [] n w)
    as (Hev & Htot & Hcat & k & Hvals & Hstate & Hret).
  cbn zeta in Hev, Htot, Hcat, Hvals, Hstate, Hret.
  set (o := for_each _ _ _ w) in *.
  pose proof (lsf_calls_ingest _ Hev) as Hlsf.
  pose proof (total_values_ingest _ Hev) as Htv.
  destruct (returned o) as [[batch processed]|e] eqn:Ho; cbn [returned after calls].
  2: { rewrite lsf_calls_lsf, Hlsf. splits; auto.
       exists k. splits; auto. intros; discriminate. }
  destruct (Hret _ _ eq_refl) as (-> & Hk & Hk' & Hsplit). cbn [app] in Hsplit.
  destruct (negb (lsf_returncode _ =? 0)); cbn [returned after calls].
  { rewrite lsf_calls_lsf, Hlsf. splits; auto.
    exists k. splits; auto. intros; discriminate. }
  destruct batch as [|r batch]; cbn [returned after calls].
  { rewrite lsf_calls_lsf, Hlsf. splits; auto.
    exists k. splits; auto. intros n' [= <-]. rewrite app_nil_r in Hsplit. splits; auto. }
  destruct (flush_batch_cases (r :: batch) (after o)) as [(t & Ht & Hf)|Hf];
    rewrite Hf; cbn [returned after calls].
  - rewrite lsf_calls_lsf, lsf_calls_app, Hlsf. cbn [app lsf_calls flat_map].
    change (total_values (EvLsf (scoped_target drive_name dir_path)
                          :: calls o ++ [EvCommit (r :: batch)]))
      with (total_values (calls o ++ [EvCommit (r :: batch)])).
    rewrite total_values_app, Htv. cbn [app total_values flat_map].
    change (processed_values (EvLsf (scoped_target drive_name dir_path)
                              :: calls o ++ [EvCommit (r :: batch)]))
      with (processed_values (calls o ++ [EvCommit (r :: batch)])).
    rewrite processed_values_app, Hvals. cbn [processed_values flat_map].
    rewrite app_nil_r, committed_lsf, committed_app, committed_commit.
    change (committed []) with (@nil record). rewrite app_nil_r.
    splits; auto.
    + intros t' Ht'. rewrite (Hcat t' Ht') in Ht. injection Ht as <-.
      now rewrite executemany_app.
    + exists k. splits; auto. intros n' [= <-]. splits; auto.
  - rewrite app_nil_r, lsf_calls_lsf, Hlsf. splits; auto.
    exists k. splits; auto. intros; discriminate.
Qed.

(** ** Listing the targets in turn *)

Lemma index_targets_cons (env : environment) (tg : scan_target) (targets : list scan_target)
    (n : Z) (w : world) :
  index_targets env (tg :: targets) n w
  = let o := _index_target env (fst tg) (snd tg) n w in
    match returned o with
    | Ok n' =>
        mkOutcome (returned (index_targets env targets n' (after o)))
                  (after (index_targets env targets n' (after o)))
                  (calls o ++ calls (index_targets env targets n' (after o)))
    | Raise e => mkOutcome (Raise e) (after o) (calls o)
    end.
Proof. destruct tg. reflexivity. Qed.

Lemma index_targets_any (env : environment) :
  forall (targets : list scan_target) (n : Z) (w : world),
    let o := index_targets env targets n w in
    total_values (calls o) = []
    /\ total_items (state (after o)) = total_items (state w)
    /\ (forall t, catalog w = Some t ->
                  catalog (after o) = Some (executemany t (committed (calls o))))
    /\ exists k : nat,
         processed_values (calls o) = counting n k
         /\ (processed_items (state w) = n ->
             processed_items (state (after o)) = n + Z.of_nat k)
         /\ (forall n', returned o = Ok n' ->
               n' = n + Z.of_nat k
               /\ k = nat_sum (map (record_lines env) targets)
               /\ k = List.length (all_records env targets)
               /\ committed (calls o) = all_records env targets
               /\ lsf_calls (calls o) = map scoped targets).
Proof.
  induction targets as [|tg targets IH]; intros n w; cbn zeta.
  - cbn. splits; auto. exists 0%nat. cbn. splits; try lia; try reflexivity.
    intros n' [= <-]. splits; auto; lia.
  - rewrite index_targets_cons. cbn zeta.
    destruct (index_target_any env tg n w)
      as (Hlsf & Htv & Htot & Hcat & k & Hvals & Hstate & Hret).
    cbn zeta in Hlsf, Htv, Htot, Hcat, Hvals, Hstate, Hret.
    set (o := _index_target env (fst tg) (snd tg) n w) in *.
    destruct (returned o) as [n1|e] eqn:Ho; cbn [returned after calls].
    2: { splits; auto. exists k. splits; auto. intros; discriminate. }
    destruct (Hret n1 eq_refl) as (-> & Hk & Hk' & Hcom).
    destruct (IH (n + Z.of_nat k) (after o))
      as (Htv' & Htot' & Hcat' & k' & Hvals' & Hstate' & Hret').
    cbn zeta in Htv', Htot', Hcat', Hvals', Hstate', Hret'.
    set (o' := index_targets env targets (n + Z.of_nat k) (after o)) in *.
    splits.
    + now rewrite total_values_app, Htv, Htv'.
    + congruence.
    + intros t Ht. rewrite (Hcat' _ (Hcat t Ht)), committed_app.
      now rewrite executemany_app.
    + exists (k + k')%nat. splits.
      * now rewrite processed_values_app, Hvals, Hvals', counting_app.
      * intros Hn. rewrite Hstate' by auto. lia.
      * intros n' Hn'. destruct (Hret' n' Hn') as (-> & Hk1 & Hk1' & Hcom' & Hlsf').
        unfold all_records in *. cbn [map nat_sum fold_right flat_map].
        rewrite length_app, committed_app, lsf_calls_app, Hcom, Hcom', Hlsf, Hlsf'.
        fold (nat_sum (map (record_lines env) targets)).
        splits; auto; lia.
Qed.

(** All the listings go through. *)
Lemma index_targets_succeed (env : environment) :
  forall (targets : list scan_target) (n : Z) (w : world) (t : table),
    catalog w = Some t ->
    Forall (listing_ok env) targets ->
    let o := index_targets env targets n w in
    returned o = Ok (n + len (all_records env targets))
    /\ catalog (after o) = Some (executemany t (all_records env targets))
    /\ committed (calls o) = all_records env targets
    /\ lsf_calls (calls o) = map scoped targets.
Proof.
  induction targets as [|tg targets IH]; intros n w t Hc Hok; cbn zeta.
  - cbn. splits; auto. f_equal. unfold len; cbn. lia.
  - inversion Hok as [|? ? Htg Hrest]; subst.
    rewrite index_targets_cons. cbn zeta.
    destruct (index_target_succeeds env tg n w t Hc Htg) as (Hret & Hcat & Hcom & _).
    destruct (index_target_any env tg n w) as (Hlsf & _).
    cbn zeta in Hret, Hcat, Hcom, Hlsf.
    rewrite Hret. cbn [returned after calls].
    destruct (IH (n + len (target_records env tg)) _ _ Hcat Hrest)
      as (Hret' & Hcat' & Hcom' & Hlsf').
    cbn zeta in Hret', Hcat', Hcom', Hlsf'.
    unfold all_records in *. cbn [flat_map map].
    rewrite Hret', Hcat', committed_app, lsf_calls_app, Hcom, Hcom', Hlsf, Hlsf'.
    rewrite executemany_app, len_app. splits; auto. f_equal. lia.
Qed.

(** The listings go through up to a target whose listing fails. *)
Lemma index_targets_fail (env : environment) (failing : scan_target) (later : list scan_target) :
  forall (earlier : list scan_target) (n : Z) (w : world) (t : table),
    catalog w = Some t ->
    Forall (listing_ok env) earlier ->
    Forall (fun l => harmless l = true) (lsf_stdout (listing env failing)) ->
    lsf_returncode (listing env failing) <> 0 ->
    let o := index_targets env (earlier ++ failing :: later) n w in
    let recs := target_records env failing in
    let kept := (all_records env earlier ++ firstn (complete (List.length recs)) recs)%list in
    returned o = Raise (listing_failed env failing)
    /\ catalog (after o) = Some (executemany t kept)
    /\ committed (calls o) = kept
    /\ lsf_calls (calls o) = map scoped (earlier ++ [failing]).
Proof.
  induction earlier as [|tg earlier IH]; intros n w t Hc Hok Hlines Hrc; cbn zeta.
  - cbn [app all_records flat_map map]. rewrite index_targets_cons. cbn zeta.
    destruct (index_target_fails env failing n w t Hc Hlines Hrc) as (Hret & Hcat & Hcom & _).
    destruct (index_target_any env failing n w) as (Hlsf & _).
    cbn zeta in Hret, Hcat, Hcom, Hlsf.
    rewrite Hret. cbn [returned after calls]. splits; auto.
  - inversion Hok as [|? ? Htg Hrest]; subst.
    cbn [app]. rewrite index_targets_cons. cbn zeta.
    destruct (index_target_succeeds env tg n w t Hc Htg) as (Hret & Hcat & Hcom & _).
    destruct (index_target_any env tg n w) as (Hlsf & _).
    cbn zeta in Hret, Hcat, Hcom, Hlsf.
    rewrite Hret. cbn [returned after calls].
    destruct (IH (n + len (target_records env tg)) _ _ Hcat Hrest Hlines Hrc)
      as (Hret' & Hcat' & Hcom' & Hlsf').
    cbn zeta in Hret', Hcat', Hcom', Hlsf'.
    unfold all_records in *. cbn [flat_map map].
    rewrite Hret', Hcat', committed_app, lsf_calls_app, Hcom, Hcom', Hlsf, Hlsf'.
    rewrite <- !app_assoc, !executemany_app. splits; auto.
Qed.

(** ** Counting the items *)

Lemma count_remote_items_run (env : environment) (tg : scan_target) (w : world) :
  _count_remote_items env (fst tg) (snd tg) w
  = mkOutcome
      (if size_returncode (rclone_size env (scoped tg)) =? 0 then
         match size_stdout (rclone_size env (scoped tg)) with
         | Count n => Ok n
         | NoCount e => Raise e
         end
       else
         Raise (RuntimeError
                  (if Py.nonempty (Py.strip_ws (size_stderr (rclone_size env (scoped tg))))
                   then Py.strip_ws (size_stderr (rclone_size env (scoped tg)))
                   else "Unknown rclone size error")))
      w [EvSize (scoped tg)].
Proof.
  unfold _count_remote_items, scoped. rewrite bind_unfold. cbn [call returned after calls].
  destruct (size_returncode _ =? 0); cbn [negb].
  - destruct (size_stdout _); reflexivity.
  - reflexivity.
Qed.

Lemma count_step (env : environment) (total : Z) (drive_name dir_path : string) (w : world) :
  try_except
    (n <- _count_remote_items env drive_name dir_path ;; ret (total + n))
    (fun _ => ret total) w
  = mkOutcome (Ok (total + counted env (drive_name, dir_path))) w
              [EvSize (scoped (drive_name, dir_path))].
Proof.
  pose proof (count_remote_items_run env (drive_name, dir_path) w) as Hrun.
  cbn [fst snd] in Hrun.
  unfold try_except. rewrite bind_unfold, Hrun. cbn [returned after calls].
  unfold counted; cbn [fst snd]. fold (scoped (drive_name, dir_path)).
  destruct (size_returncode _ =? 0).
  - destruct (size_stdout _); cbn [ret returned after calls app]; now rewrite ?Z.add_0_r.
  - cbn [ret returned after calls app]. now rewrite Z.add_0_r.
Qed.

Lemma count_all_items_loop (env : environment) :
  forall (targets : list scan_target) (total : Z) (w : world),
    for_each
      (fun total '(drive_name, dir_path) =>
         try_except
           (n <- _count_remote_items env drive_name dir_path ;; ret (total + n))
           (fun _ => ret total))
      targets total w
    = mkOutcome (Ok (total + sum (map (counted env) targets))) w
                (map (fun t => EvSize (scoped t)) targets).
Proof.
  induction targets as [|tg targets IH]; intros total w.
  - cbn. now rewrite Z.add_0_r.
  - rewrite for_each_cons. destruct tg as [drive_name dir_path].
    rewrite count_step. cbn [returned after calls]. rewrite IH.
    cbn [returned after calls app map sum fold_right].
    f_equal. f_equal. unfold sum. lia.
Qed.

(** Counting never raises and touches nothing: a target whose count fails
    adds nothing to the total. *)
Lemma count_all_items_run (env : environment) (targets : list scan_target) (w : world) :
  _count_all_items env targets w
  = mkOutcome (Ok (sum (map (counted env) targets))) w
              (map (fun t => EvSize (scoped t)) targets).
Proof. unfold _count_all_items. now rewrite count_all_items_loop. Qed.

(** ** The whole run *)

Lemma init_db_run (self : datasource) (w : world) :
  _init_db self w = mkOutcome (Ok tt) (connect w) [EvConnect (sqlite_path self)].
Proof.
  unfold _init_db, connect. rewrite !bind_unfold. cbn [call get_catalog returned after calls].
  destruct (catalog w); reflexivity.
Qed.

Lemma fetch_unfold (self : datasource) (env : environment) (w : world) :
  fetch self env w =
  if negb (config_exists env) then
    mkOutcome (Raise (FileNotFoundError
                        ("rclone config not found: " ++ rclone_config_path self))) w []
  else if negb (rclone_installed env) then
    mkOutcome (Raise (EnvironmentError "rclone binary not found on PATH.")) w []
  else
    match _resolve_targets self (config_sections env) with
    | Raise e => mkOutcome (Raise e) w []
    | Ok [] => mkOutcome (Raise (ValueError "No rclone remotes found to index.")) w []
    | Ok (tg :: targets) => fetch_targets self env (tg :: targets) w
    end.
Proof.
  unfold fetch, fetch_with.
  change (_emit_progress_safe_with (channel env)) with (_emit_progress_safe env).
  change (_index_target_with env (channel env)) with (_index_target env).
  rewrite bind_unfold. unfold _validate_config.
  destruct (negb (config_exists env)); [reflexivity|].
  destruct (negb (rclone_installed env)); [reflexivity|].
  cbn [ret returned after calls app].
  rewrite bind_unfold. cbn [_load_remotes ret returned after calls app].
  rewrite bind_unfold. cbn [lift returned after calls app].
  destruct (_resolve_targets self (config_sections env)) as [[|tg targets]|e];
    [reflexivity| |reflexivity].
  set (ts := tg :: targets).
  rewrite bind_unfold. cbn [call returned after calls app].
  rewrite bind_unfold, init_db_run. cbn [returned after calls app].
  rewrite bind_unfold, count_all_items_run. cbn [returned after calls app].
  rewrite bind_unfold, set_total_items_run. cbn [returned after calls app].
  rewrite bind_unfold, set_processed_items_run. cbn [returned after calls app].
  rewrite bind_unfold, emit_progress_safe_run. cbn [returned after calls app].
  rewrite bind_unfold. unfold try_finally. cbn [call returned after calls].
  unfold fetch_targets, prologue, started. fold (index_targets env ts 0).
  destruct (returned (index_targets env ts 0 _)) as [processed|e]; cbn [returned after calls].
  - rewrite bind_unfold, set_fetch_completed_run. cbn [returned after calls].
    rewrite bind_unfold, emit_progress_safe_run. cbn [ret returned after calls app].
    f_equal. rewrite <- !app_assoc. cbn [app]. rewrite app_nil_r. reflexivity.
  - f_equal. rewrite <- !app_assoc. reflexivity.
Qed.

Lemma fetch_resolved (self : datasource) (env : environment) (w : world)
    (targets : list scan_target) :
  config_exists env = true ->
  rclone_installed env = true ->
  _resolve_targets self (config_sections env) = Ok targets ->
  targets <> [] ->
  fetch self env w = fetch_targets self env targets w.
Proof.
  intros Hcfg Hbin Hres Hne. rewrite fetch_unfold, Hcfg, Hbin, Hres. cbn [negb].
  now destruct targets.
Qed.

(** ** The run over the targets *)

Lemma started_catalog (env : environment) (targets : list scan_target) (w : world) :
  catalog (started env targets w) = Some (opened (catalog w)).
Proof. unfold started, connect. destruct (catalog w) eqn:E; cbn; now rewrite ?E. Qed.

Lemma size_calls_reading (targets : list scan_target) :
  lsf_calls (map (fun t => EvSize (scoped t)) targets) = []
  /\ commits (map (fun t => EvSize (scoped t)) targets) = []
  /\ processed_values (map (fun t => EvSize (scoped t)) targets) = []
  /\ total_values (map (fun t => EvSize (scoped t)) targets) = [].
Proof.
  induction targets as [|t targets (H1 & H2 & H3 & H4)]; [now splits|].
  cbn [map]. unfold lsf_calls, commits, processed_values, total_values in *.
  cbn [flat_map app]. auto.
Qed.

Lemma prologue_reading (self : datasource) (env : environment) (targets : list scan_target)
    (w : world) :
  lsf_calls (prologue self env targets w) = []
  /\ committed (prologue self env targets w) = []
  /\ processed_values (prologue self env targets w) = [0]
  /\ total_values (prologue self env targets w) = [sum (map (counted env) targets)].
Proof.
  unfold prologue, committed.
  destruct (size_calls_reading targets) as (H1 & H2 & H3 & H4).
  rewrite !lsf_calls_app, !commits_app, !processed_values_app, !total_values_app.
  rewrite H1, H2, H3, H4, lsf_calls_emit, commits_emit, processed_values_emit, total_values_emit.
  splits; reflexivity.
Qed.

(** The calls of [fetch] after the last target. *)
Lemma fetch_targets_calls (self : datasource) (env : environment)
    (targets : list scan_target) (w : world) :
  exists epilogue,
    calls (fetch_targets self env targets w)
    = (prologue self env targets w
       ++ calls (index_targets env targets 0 (started env targets w))
       ++ epilogue)%list
    /\ lsf_calls epilogue = [] /\ committed epilogue = []
    /\ processed_values epilogue = [] /\ total_values epilogue = [].
Proof.
  unfold fetch_targets.
  destruct (returned (index_targets env targets 0 (started env targets w)));
    cbn [calls]; eexists; (split; [reflexivity|]).
  - unfold committed. cbn [app lsf_calls commits processed_values total_values flat_map].
    now rewrite lsf_calls_emit, commits_emit, processed_values_emit, total_values_emit.
  - cbn. auto.
Qed.

Lemma fetch_targets_state (self : datasource) (env : environment)
    (targets : list scan_target) (w : world) :
  let o := index_targets env targets 0 (started env targets w) in
  catalog (after (fetch_targets self env targets w)) = catalog (after o)
  /\ total_items (state (after (fetch_targets self env targets w)))
     = total_items (state (after o))
  /\ processed_items (state (after (fetch_targets self env targets w)))
     = processed_items (state (after o)).
Proof.
  cbn zeta. unfold fetch_targets.
  destruct (returned (index_targets env targets 0 (started env targets w)));
    cbn [after with_completed catalog state total_items processed_items]; auto.
Qed.


(** ** Comparing two runs *)

Section RelatedLemmas.

Variable Rw : world -> world -> Prop.
Variable keep : event -> bool.

Lemma related_ret {A} (a : A) : related Rw keep (ret a) (ret a).
Proof. intros w1 w2 H. cbn. auto. Qed.

Lemma related_raise {A} (e : exn) : related Rw keep (@raise A e) (raise e).
Proof. intros w1 w2 H. cbn. auto. Qed.

Lemma related_lift {A} (r : result A) : related Rw keep (lift r) (lift r).
Proof. intros w1 w2 H. cbn. auto. Qed.

Lemma related_call (e : event) : related Rw keep (call e) (call e).
Proof. intros w1 w2 H. cbn. auto. Qed.

Lemma related_bind {A B} (m1 m2 : Run A) (k1 k2 : A -> Run B) :
  related Rw keep m1 m2 ->
  (forall a, related Rw keep (k1 a) (k2 a)) ->
  related Rw keep (bind m1 k1) (bind m2 k2).
Proof.
  intros Hm Hk w1 w2 Hw. rewrite !bind_unfold.
  destruct (Hm w1 w2 Hw) as (Hret & Haft & Hcalls).
  rewrite <- Hret. destruct (returned (m1 w1)) as [a|e]; cbn [returned after calls].
  - destruct (Hk a _ _ Haft) as (Hret' & Haft' & Hcalls').
    rewrite !filter_app, Hcalls, Hcalls'. auto.
  - auto.
Qed.

Lemma related_try_except {A} (b1 b2 : Run A) (h1 h2 : exn -> Run A) :
  related Rw keep b1 b2 ->
  (forall e, related Rw keep (h1 e) (h2 e)) ->
  related Rw keep (try_except b1 h1) (try_except b2 h2).
Proof.
  intros Hb Hh w1 w2 Hw. unfold try_except.
  destruct (Hb w1 w2 Hw) as (Hret & Haft & Hcalls).
  rewrite <- Hret. destruct (returned (b1 w1)) as [a|[e|class msg]] eqn:E1.
  - rewrite Hret in E1. auto.
  - destruct (Hh e _ _ Haft) as (Hret' & Haft' & Hcalls'). cbn [returned after calls].
    rewrite !filter_app, Hcalls, Hcalls'. auto.
  - rewrite Hret in E1. auto.
Qed.

Lemma related_try_finally {A} (b1 b2 : Run A) (c1 c2 : Run unit) :
  related Rw keep b1 b2 ->
  related Rw keep c1 c2 ->
  related Rw keep (try_finally b1 c1) (try_finally b2 c2).
Proof.
  intros Hb Hc w1 w2 Hw. unfold try_finally. cbn [returned after calls].
  destruct (Hb w1 w2 Hw) as (Hret & Haft & Hcalls).
  destruct (Hc _ _ Haft) as (Hret' & Haft' & Hcalls').
  rewrite !filter_app, Hcalls, Hcalls', Hret, Hret'. auto.
Qed.

Lemma related_for_each {A S} (b1 b2 : S -> A -> Run S) :
  (forall s x, related Rw keep (b1 s x) (b2 s x)) ->
  forall items s, related Rw keep (for_each b1 items s) (for_each b2 items s).
Proof.
  intros Hb. induction items as [|x items IH]; intros s; cbn [for_each].
  - apply related_ret.
  - apply related_bind; [apply Hb|]. intros s'. apply IH.
Qed.

End RelatedLemmas.

Ltac relate :=
  repeat match goal with
         | |- related _ _ (bind _ _) (bind _ _) => apply related_bind; [|intros ?]
         | |- related _ _ (ret _) (ret _) => apply related_ret
         | |- related _ _ (raise _) (raise _) => apply related_raise
         | |- related _ _ (lift _) (lift _) => apply related_lift
         | |- related _ _ (call _) (call _) => apply related_call
         | |- related _ _ (try_except _ _) (try_except _ _) =>
             apply related_try_except; [|intros ?]
         | |- related _ _ (try_finally _ _) (try_finally _ _) => apply related_try_finally
         | |- related _ _ (for_each _ _ _) (for_each _ _ _) =>
             apply related_for_each; intros ? ?
         | |- related _ _ (match ?x with _ => _ end) _ => destruct x
         end.


(** ** Batch boundaries (C1) *)

(** C1. A successful run of the listing ingestor on one target whose
    listing is N well-formed records returns the count advanced by N and
    writes exactly those N records to the catalogue, in order, whatever N is
    with respect to the batch size: the commits are complete batches of 500
    followed, when records remain after the stream is exhausted, by one
    partial batch.  When the N paths are distinct and new to the catalogue,
    the table grows by exactly N rows. *)
Theorem batch_boundary_correctness
    (env : environment) (tg : scan_target) (n : Z) (w : world) (t : table) :
  catalog w = Some t ->
  Forall (fun l => well_formed l = true) (lsf_stdout (listing env tg)) ->
  lsf_returncode (listing env tg) = 0 ->
  let N := List.length (lsf_stdout (listing env tg)) in
  let o := _index_target env (fst tg) (snd tg) n w in
  returned o = Ok (n + Z.of_nat N)
  /\ committed (calls o) = target_records env tg
  /\ List.length (committed (calls o)) = N
  /\ catalog (after o) = Some (executemany t (committed (calls o)))
  /\ (exists full rest,
        commits (calls o) = (full ++ match rest with [] => [] | _ => [rest] end)%list
        /\ Forall (fun b => len b = batch_size) full
        /\ len rest < batch_size)
  /\ (NoDup (map full_path (committed (calls o))) ->
      (forall r, In r (committed (calls o)) -> select t (full_path r) = None) ->
      List.length (rows (opened (catalog (after o)))) = (List.length (rows t) + N)%nat).
Proof.
  intros Hc Hwf Hrc N o.
  assert (Hok : listing_ok env tg).
  { split; [|exact Hrc]. eapply Forall_impl; [|exact Hwf]. apply well_formed_harmless. }
  destruct (index_target_succeeds env tg n w t Hc Hok)
    as (Hret & Hcat & Hcom & full & rest & Hbatches & _ & Hfull & Hrest).
  fold o in Hret, Hcat, Hcom, Hbatches.
  assert (HN : List.length (target_records env tg) = N).
  { unfold target_records. now apply records_of_well_formed. }
  rewrite Hcom, Hcat, Hret. splits; auto.
  - unfold len. now rewrite HN.
  - exists full, rest. auto.
  - intros Hnd Hfresh. cbn [opened]. rewrite executemany_fresh_length by assumption. lia.
Qed.

Lemma batch_boundary_correctness_witness :
  returned (_index_target sample_env "a" EmptyString 7 sample_world) = Ok 9.
Proof.
  refine (proj1 (batch_boundary_correctness sample_env ("a", EmptyString) 7 sample_world
                   Sqlite.empty _ _ _)).
  - reflexivity.
  - repeat constructor.
  - reflexivity.
Defined.

(** The run at the batch boundaries: 0, 1, 499, 500, 501 and 1000 records. *)
Example batch_boundaries_computed :
  map boundary_run [0; 1; 499; 500; 501; 1000]%nat
  = [(Ok 0, 0%nat, []); (Ok 1, 1%nat, [1%nat]); (Ok 499, 499%nat, [499%nat]);
     (Ok 500, 500%nat, [500%nat]); (Ok 501, 501%nat, [500; 1]%nat);
     (Ok 1000, 1000%nat, [500; 500]%nat)].
Proof. vm_compute. reflexivity. Qed.


(** ** Lines that are not complete records (C2) *)

Lemma for_each_app {A S} (body : S -> A -> Run S) (l1 l2 : list A) (acc : S) (w : world) :
  for_each body (l1 ++ l2) acc w
  = bind (for_each body l1 acc) (for_each body l2) w.
Proof.
  revert acc w; induction l1 as [|x l1 IH]; intros acc w.
  - cbn [app for_each]. rewrite bind_unfold. cbn [ret returned after calls app].
    now destruct (for_each body l2 acc w).
  - cbn [app]. rewrite for_each_cons, !bind_unfold, for_each_cons.
    destruct (returned (body acc x w)) as [acc'|e]; cbn [returned after calls]; [|reflexivity].
    rewrite IH, bind_unfold.
    destruct (returned (for_each body l1 acc' (after (body acc x w))));
      cbn [returned after calls]; now rewrite ?app_assoc.
Qed.

Lemma index_line_skipped (env : environment) (drive_name clean_dir l : string)
    (vars : list record * Z) (w : world) :
  is_record_line l = false ->
  index_line env drive_name clean_dir vars l w = mkOutcome (Ok vars) w [].
Proof.
  intros H. unfold index_line, index_line_with. destruct vars as [batch n].
  rewrite bind_unfold. cbn [lift returned after calls].
  now rewrite (line_record_skipped _ _ _ H).
Qed.

Lemma for_each_skipped (env : environment) (drive_name clean_dir l : string)
    (later : list string) (vars : list record * Z) (w : world) :
  is_record_line l = false ->
  for_each (index_line env drive_name clean_dir) (l :: later) vars w
  = for_each (index_line env drive_name clean_dir) later vars w.
Proof.
  intros H. rewrite for_each_cons, (index_line_skipped _ _ _ _ _ _ H).
  cbn [returned after calls app].
  now destruct (for_each (index_line env drive_name clean_dir) later vars w).
Qed.

Lemma blank_is_skipped (l : string) :
  Py.rstrip (Py.is_char Py.newline) l = EmptyString -> is_record_line l = false.
Proof. unfold is_record_line, fields_of. now intros ->. Qed.

(** The claim as stated fails on a line that has a relative path and no
    other field: the line is stored as a record of size 0. *)
Lemma one_field_line_is_stored :
  fields_of (line ["docs/y.txt"]) = ["docs/y.txt"]
  /\ records_of "a" EmptyString [line ["docs/y.txt"]]
     = [mkRecord "a:docs/y.txt" "a" 0 EmptyString None]
  /\ returned (fetch single_request short_lines_env fresh_world)
     = Ok {| db_path := "my_files.sqlite"; total_indexed := 2; remotes := ["a"] |}
  /\ contents (opened (catalog (after (fetch single_request short_lines_env fresh_world))))
     = [mkRecord "a:docs/y.txt" "a" 0 EmptyString None;
        mkRecord "a:x.txt" "a" 12 "f" (Some "2024-01-01 10:00:00")].
Proof. splits; reflexivity. Qed.

(** C2, amended. A line whose first field is empty, a blank line among
    them, raises nothing and adds nothing: the run is the one of the listing
    without the line, so the lines after it are ingested as before.  A line
    that has a relative path and no other field raises nothing either, but
    it is a record: it is stored with an empty type, size 0 and no
    modification time, between the records of the lines before it and of
    the lines after it. *)
Theorem malformed_line_tolerance
    (env : environment) (drive_name clean_dir : string)
    (earlier later : list string) (l : string)
    (batch : list record) (n : Z) (w : world) :
  (Py.rstrip (Py.is_char Py.newline) l = EmptyString -> is_record_line l = false)
  /\ (is_record_line l = false ->
      line_record drive_name clean_dir l = Ok None
      /\ records_of drive_name clean_dir (earlier ++ l :: later)
         = records_of drive_name clean_dir (earlier ++ later)
      /\ for_each (index_line env drive_name clean_dir) (earlier ++ l :: later) (batch, n) w
         = for_each (index_line env drive_name clean_dir) (earlier ++ later) (batch, n) w)
  /\ (forall p, fields_of l = [p] -> p <> EmptyString ->
        let r := mkRecord (drive_name ++ ":" ++ prefix_of clean_dir ++ p) drive_name 0
                          EmptyString None in
        line_record drive_name clean_dir l = Ok (Some r)
        /\ well_formed l = true
        /\ records_of drive_name clean_dir (earlier ++ l :: later)
           = (records_of drive_name clean_dir earlier ++ r
              :: records_of drive_name clean_dir later)%list)
  /\ (forall tg t,
        lsf_stdout (listing env tg) = (earlier ++ l :: later)%list ->
        listing_ok env tg -> catalog w = Some t ->
        let o := _index_target env (fst tg) (snd tg) n w in
        returned o = Ok (n + len (target_records env tg))
        /\ committed (calls o)
           = (records_of (fst tg) (clean (snd tg)) earlier
              ++ records_of (fst tg) (clean (snd tg)) [l]
              ++ records_of (fst tg) (clean (snd tg)) later)%list
        /\ catalog (after o) = Some (executemany t (committed (calls o)))).
Proof.
  splits.
  - apply blank_is_skipped.
  - intros Hskip. splits.
    + now apply line_record_skipped.
    + rewrite !records_of_app, records_of_cons.
      now rewrite (line_record_skipped _ _ _ Hskip).
    + rewrite !for_each_app, !bind_unfold.
      destruct (returned (for_each (index_line env drive_name clean_dir) earlier (batch, n) w));
        [|reflexivity].
      now rewrite for_each_skipped.
  - intros p Hfields Hp r.
    assert (Hrec : is_record_line l = true).
    { unfold is_record_line. rewrite Hfields. cbn [hd]. now destruct p. }
    assert (Hsize : size_of l = Ok 0).
    { unfold size_of. now rewrite Hfields. }
    assert (Hline : line_record drive_name clean_dir l = Ok (Some r)).
    { rewrite line_record_unfold, Hrec, Hsize, Hfields. reflexivity. }
    splits; auto.
    + unfold well_formed, size_field_ok. now rewrite Hrec, Hfields.
    + now rewrite records_of_app, records_of_cons, Hline.
  - intros tg t Hlines Hok Hc o.
    destruct (index_target_succeeds env tg n w t Hc Hok) as (Hret & Hcat & Hcom & _).
    fold o in Hret, Hcat, Hcom. rewrite Hcat, Hcom. splits; auto.
    unfold target_records. rewrite Hlines, records_of_app.
    change (l :: later) with ([l] ++ later)%list. now rewrite records_of_app.
Qed.

(** ** Idempotent ingestion (C3) *)

Lemma commits_filter (l : list event) : commits (filter is_commit l) = commits l.
Proof.
  induction l as [|e l IH]; [reflexivity|].
  destruct e; cbn [filter is_commit]; unfold commits in *; cbn [flat_map app];
    now rewrite ?IH.
Qed.

Lemma is_commit_emit_events (env : environment) (p : progress) :
  filter is_commit (emit_events env p) = [].
Proof. unfold emit_events. now destruct (emit_progress env). Qed.

Lemma update_progress_reproducible (env : environment) (n : Z) :
  related both_opened is_commit (_update_progress env n) (_update_progress env n).
Proof.
  intros w1 w2 Hw. rewrite !update_progress_run. cbn [returned after calls filter is_commit].
  now rewrite !is_commit_emit_events.
Qed.

Lemma flush_batch_reproducible (batch : list record) :
  related both_opened is_commit (_flush_batch batch) (_flush_batch batch).
Proof.
  intros w1 w2 [H1 H2].
  destruct (catalog w1) as [t1|] eqn:E1; [|contradiction].
  destruct (catalog w2) as [t2|] eqn:E2; [|contradiction].
  destruct (bindable batch) eqn:Hb.
  - rewrite (flush_batch_run batch w1 t1 E1 Hb), (flush_batch_run batch w2 t2 E2 Hb).
    cbn [returned after calls]. splits; auto. split; discriminate.
  - rewrite (flush_batch_fails batch w1), (flush_batch_fails batch w2) by now right.
    cbn [returned after calls]. rewrite E1, E2. splits; auto.
    split; congruence.
Qed.

Lemma index_line_reproducible (env : environment) (drive_name clean_dir : string)
    (vars : list record * Z) (line : string) :
  related both_opened is_commit (index_line env drive_name clean_dir vars line)
                                (index_line env drive_name clean_dir vars line).
Proof.
  unfold index_line, index_line_with.
  change (_update_progress_with (channel env)) with (_update_progress env).
  relate; first [apply update_progress_reproducible | apply flush_batch_reproducible].
Qed.

Lemma index_target_reproducible (env : environment) (drive_name dir_path : string) (n : Z) :
  related both_opened is_commit (_index_target env drive_name dir_path n)
                                (_index_target env drive_name dir_path n).
Proof.
  unfold _index_target, _index_target_with.
  change (index_line_with (channel env)) with (index_line env).
  relate; first [apply index_line_reproducible | apply flush_batch_reproducible].
Qed.

(** What the loop over the targets returns and writes depends neither on
    what the catalogue holds nor on the progress fields. *)
Lemma index_targets_reproducible (env : environment) (targets : list scan_target) (n : Z)
    (w1 w2 : world) :
  catalog w1 <> None -> catalog w2 <> None ->
  returned (index_targets env targets n w1) = returned (index_targets env targets n w2)
  /\ committed (calls (index_targets env targets n w1))
     = committed (calls (index_targets env targets n w2)).
Proof.
  intros H1 H2.
  assert (Hrel : related both_opened is_commit
                   (index_targets env targets n) (index_targets env targets n)).
  { unfold index_targets. relate. apply index_target_reproducible. }
  destruct (Hrel w1 w2 (conj H1 H2)) as (Hret & _ & Hcalls).
  split; [exact Hret|].
  unfold committed. now rewrite <- (commits_filter (calls _)), Hcalls, commits_filter.
Qed.

Lemma opened_unique (w : world) :
  (forall t, catalog w = Some t -> unique_paths t) -> unique_paths (opened (catalog w)).
Proof.
  intros H. destruct (catalog w) as [t|]; cbn [opened]; [now apply H|apply empty_unique].
Qed.

Lemma insert_single (t : table) (r : record) :
  List.length (filter (has_path (full_path r)) (rows (insert_or_replace t r))) = 1%nat.
Proof.
  unfold insert_or_replace; cbn [rows]. rewrite filter_app.
  assert (H : forall l, filter (has_path (full_path r))
                          (filter (fun x => negb (has_path (full_path r) x)) l) = []).
  { induction l as [|x l IH]; [reflexivity|]. cbn [filter].
    destruct (has_path (full_path r) x) eqn:E; cbn [negb filter]; [exact IH|].
    now rewrite E. }
  rewrite H. cbn [filter app]. unfold has_path at 1; cbn [fields].
  now rewrite String.eqb_refl.
Qed.

(** C3. Running the ingestion a second time against the same listings
    leaves the catalogue with the same records and the same number of rows
    as the first run left it, and returns what the first run returned:
    full_path stays unique, and writing a record under a path the table
    already has replaces the row (the last write wins) instead of adding
    one.  Only the surrogate ids are renewed. *)
Theorem idempotent_ingestion (self : datasource) (env : environment) (w : world) :
  (forall t, catalog w = Some t -> unique_paths t) ->
  let once := fetch self env w in
  let twice := fetch self env (after once) in
  unique_paths (opened (catalog (after once)))
  /\ unique_paths (opened (catalog (after twice)))
  /\ Permutation (contents (opened (catalog (after twice))))
                 (contents (opened (catalog (after once))))
  /\ List.length (rows (opened (catalog (after twice))))
     = List.length (rows (opened (catalog (after once))))
  /\ (forall p, select (opened (catalog (after twice))) p
                = select (opened (catalog (after once))) p)
  /\ returned twice = returned once
  /\ (forall t batch,
        unique_paths t ->
        unique_paths (executemany t batch)
        /\ Permutation (contents (executemany (executemany t batch) batch))
                       (contents (executemany t batch)))
  /\ (forall t r,
        select (insert_or_replace t r) (full_path r) = Some r
        /\ List.length (filter (has_path (full_path r)) (rows (insert_or_replace t r))) = 1%nat).
Proof.
  intros Hunique once twice.
  assert (Hflush : forall t batch,
             unique_paths t ->
             unique_paths (executemany t batch)
             /\ Permutation (contents (executemany (executemany t batch) batch))
                            (contents (executemany t batch))).
  { intros t batch Ht. split; [now apply executemany_unique|now apply executemany_twice]. }
  assert (Hinsert : forall t r,
             select (insert_or_replace t r) (full_path r) = Some r
             /\ List.length (filter (has_path (full_path r))
                               (rows (insert_or_replace t r))) = 1%nat).
  { intros t r. split; [|apply insert_single].
    rewrite select_insert. now rewrite String.eqb_refl. }
  assert (Hlen : forall t1 t2, Permutation (contents t1) (contents t2) ->
                               List.length (rows t1) = List.length (rows t2)).
  { intros t1 t2 H. apply Permutation_length in H. unfold contents in H.
    now rewrite !length_map in H. }
  pose proof (opened_unique w Hunique) as Hw.
  assert (Hmain :
            unique_paths (opened (catalog (after once)))
            /\ unique_paths (opened (catalog (after twice)))
            /\ Permutation (contents (opened (catalog (after twice))))
                           (contents (opened (catalog (after once))))
            /\ List.length (rows (opened (catalog (after twice))))
               = List.length (rows (opened (catalog (after once))))
            /\ (forall p, select (opened (catalog (after twice))) p
                          = select (opened (catalog (after once))) p)
            /\ returned twice = returned once).
  { unfold twice, once. rewrite (fetch_unfold self env (after (fetch self env w))).
    rewrite (fetch_unfold self env w).
    destruct (negb (config_exists env)); [cbn [after returned]; splits; auto|].
    destruct (negb (rclone_installed env)); [cbn [after returned]; splits; auto|].
    destruct (_resolve_targets self (config_sections env)) as [[|tg targets]|e];
      [cbn [after returned]; splits; auto| |cbn [after returned]; splits; auto].
    set (ts := tg :: targets).
    set (w1 := after (fetch_targets self env ts w)).
    destruct (fetch_targets_state self env ts w) as (Hcat1 & _ & _).
    destruct (fetch_targets_state self env ts w1) as (Hcat2 & _ & _).
    destruct (index_targets_any env ts 0 (started env ts w)) as (_ & _ & Htrack1 & _).
    destruct (index_targets_any env ts 0 (started env ts w1)) as (_ & _ & Htrack2 & _).
    cbn zeta in Hcat1, Hcat2, Htrack1, Htrack2.
    specialize (Htrack1 _ (started_catalog env ts w)).
    specialize (Htrack2 _ (started_catalog env ts w1)).
    destruct (index_targets_reproducible env ts 0 (started env ts w1) (started env ts w))
      as (Hret & Hcom); try (rewrite started_catalog; discriminate).
    fold w1 in Hcat1. rewrite Htrack1 in Hcat1. rewrite Htrack2, Hcom in Hcat2.
    set (L := committed (calls (index_targets env ts 0 (started env ts w)))) in *.
    rewrite Hcat2, Hcat1. cbn [opened].
    splits.
    - now apply executemany_unique.
    - now do 2 apply executemany_unique.
    - now apply executemany_twice.
    - apply Hlen. now apply executemany_twice.
    - intros p. apply executemany_twice_select.
    - unfold fetch_targets. rewrite Hret.
      destruct (returned (index_targets env ts 0 (started env ts w))); reflexivity. }
  destruct Hmain as (H1 & H2 & H3 & H4 & H5 & H6). splits; auto.
Qed.

Lemma idempotent_ingestion_witness :
  Permutation
    (contents (opened (catalog (after (fetch single_request sample_env
                 (after (fetch single_request sample_env fresh_world)))))))
    (contents (opened (catalog (after (fetch single_request sample_env fresh_world)))))
  /\ List.length (rows (opened (catalog (after (fetch single_request sample_env
                     (after (fetch single_request sample_env fresh_world))))))) = 2%nat.
Proof.
  refine (conj (proj1 (proj2 (proj2
                 (idempotent_ingestion single_request sample_env fresh_world _)))) eq_refl).
  intros t H. discriminate H.
Defined.
(** ** Fatal and recovered targets (C4) *)

(** C4. Counting never raises: a target whose count fails (non-zero exit
    or unusable output) adds 0, so with a failing T1 and a T2 that counts c
    the total is c, the run goes on to list T1, and the progress total is c.
    A listing that fails with a non-zero exit on a target, the listings of
    the targets before it going through, aborts the run with the listing
    failure of that target: no later target is listed, and the catalogue
    holds the records of the earlier targets and the complete batches of the
    failing one. *)
Theorem fatal_and_recovered_targets (self : datasource) (env : environment) (w : world) :
  (forall targets,
      _count_all_items env targets w
      = mkOutcome (Ok (sum (map (counted env) targets))) w
                  (map (fun t => EvSize (scoped t)) targets))
  /\ (forall t1 t2 c,
        size_returncode (rclone_size env (scoped t1)) <> 0
        \/ (exists e, size_stdout (rclone_size env (scoped t1)) = NoCount e) ->
        size_returncode (rclone_size env (scoped t2)) = 0 ->
        size_stdout (rclone_size env (scoped t2)) = Count c ->
        returned (_count_all_items env [t1; t2] w) = Ok c
        /\ (config_exists env = true -> rclone_installed env = true ->
            _resolve_targets self (config_sections env) = Ok [t1; t2] ->
            let o := fetch self env w in
            total_values (calls o) = [c]
            /\ total_items (state (after o)) = c
            /\ hd_error (lsf_calls (calls o)) = Some (scoped t1)))
  /\ (forall earlier failing later,
        config_exists env = true -> rclone_installed env = true ->
        _resolve_targets self (config_sections env) = Ok (earlier ++ failing :: later)%list ->
        Forall (listing_ok env) earlier ->
        Forall (fun l => harmless l = true) (lsf_stdout (listing env failing)) ->
        lsf_returncode (listing env failing) <> 0 ->
        let o := fetch self env w in
        let recs := target_records env failing in
        let kept := (all_records env earlier ++ firstn (complete (List.length recs)) recs)%list in
        returned o = Raise (listing_failed env failing)
        /\ lsf_calls (calls o) = map scoped (earlier ++ [failing])%list
        /\ committed (calls o) = kept
        /\ catalog (after o) = Some (executemany (opened (catalog w)) kept)).
Proof.
  splits.
  - intros targets. apply count_all_items_run.
  - intros t1 t2 c Hfail Hrc Hout.
    assert (H1 : counted env t1 = 0).
    { unfold counted. fold (scoped t1).
      destruct (size_returncode (rclone_size env (scoped t1)) =? 0) eqn:E; [|reflexivity].
      destruct Hfail as [Hne|[e He]]; [apply Z.eqb_eq in E; contradiction|now rewrite He]. }
    assert (H2 : counted env t2 = c).
    { unfold counted. fold (scoped t2). now rewrite Hrc, Hout. }
    assert (Hsum : sum (map (counted env) [t1; t2]) = c).
    { cbn. rewrite H1, H2. lia. }
    split.
    + rewrite count_all_items_run. cbn [returned]. now rewrite Hsum.
    + intros Hcfg Hbin Hres. cbn zeta.
      rewrite (fetch_resolved self env w [t1; t2] Hcfg Hbin Hres) by discriminate.
      destruct (fetch_targets_calls self env [t1; t2] w)
        as (epilogue & Hcalls & Hl & _ & _ & Ht).
      destruct (fetch_targets_state self env [t1; t2] w) as (_ & Htot & _).
      destruct (prologue_reading self env [t1; t2] w) as (Hpl & _ & _ & Hpt).
      destruct (index_targets_any env [t1; t2] 0 (started env [t1; t2] w))
        as (Htv & Htot' & _).
      cbn zeta in Htv, Htot', Htot.
      rewrite Hcalls, Htot, Htot', !total_values_app, !lsf_calls_app, Hpl, Hpt, Htv, Ht, Hl.
      rewrite Hsum. cbn [app]. splits; auto.
      rewrite index_targets_cons. cbn zeta.
      destruct (index_target_any env t1 0 (started env [t1; t2] w)) as (Hlsf & _).
      cbn zeta in Hlsf.
      destruct (returned (_index_target env (fst t1) (snd t1) 0 _)); cbn [calls].
      * rewrite lsf_calls_app, Hlsf. reflexivity.
      * rewrite Hlsf. reflexivity.
  - intros earlier failing later Hcfg Hbin Hres Hok Hlines Hrc. cbn zeta.
    rewrite (fetch_resolved self env w _ Hcfg Hbin Hres) by now destruct earlier.
    destruct (fetch_targets_calls self env (earlier ++ failing :: later)%list w)
      as (epilogue & Hcalls & Hl & Hc & _ & _).
    destruct (fetch_targets_state self env (earlier ++ failing :: later)%list w) as (Hcat & _ & _).
    destruct (prologue_reading self env (earlier ++ failing :: later)%list w) as (Hpl & Hpc & _ & _).
    destruct (index_targets_fail env failing later earlier 0
                (started env (earlier ++ failing :: later)%list w) _
                (started_catalog env _ w) Hok Hlines Hrc)
      as (Hret & Hcat' & Hcom & Hlsf).
    cbn zeta in Hret, Hcat', Hcom, Hlsf, Hcat.
    rewrite Hcalls, Hcat, Hcat', !committed_app, !lsf_calls_app, Hpl, Hpc, Hl, Hc, Hcom, Hlsf.
    rewrite !app_nil_r. cbn [app]. splits; auto.
    unfold fetch_targets. now rewrite Hret.
Qed.

Lemma fatal_and_recovered_targets_witness :
  total_items (state (after (fetch reversed_request sample_env fresh_world))) = 2
  /\ returned (fetch all_remotes_request sample_env fresh_world)
     = Raise (RuntimeError "rclone lsf failed for b:: directory not found")
  /\ lsf_calls (calls (fetch all_remotes_request sample_env fresh_world)) = ["a:"; "b:"].
Proof.
  pose proof (fatal_and_recovered_targets reversed_request sample_env fresh_world)
    as (_ & Hcount & _).
  pose proof (fatal_and_recovered_targets all_remotes_request sample_env fresh_world)
    as (_ & _ & Hlist).
  split.
  - refine (proj1 (proj2 (proj2 (Hcount ("b", "/") ("a", "/") 2 _ _ _) _ _ _)));
      try reflexivity.
    left. discriminate.
  - refine ((fun H => conj (proj1 H) (proj1 (proj2 H)))
              (Hlist [("a", EmptyString)] ("b", EmptyString) [] _ _ _ _ _ _));
      try reflexivity.
    + repeat constructor.
    + repeat constructor.
    + discriminate.
Defined.


(** ** Path construction (C5) *)

(** C5. The full path of a record is the remote name, a colon, the
    directory stripped of its leading and trailing separators and followed
    by one separator when it is not empty, and the relative path; the scoped
    target is the remote name, a colon and the stripped directory.  With the
    directory [/a/b/] and the relative path [c.txt] the full path is
    [r:a/b/c.txt]; with an empty directory it is [r:c.txt] and the scoped
    target is [r:]. *)
Theorem path_construction (drive_name dir_path l : string) (r : record) :
  line_record drive_name (clean dir_path) l = Ok (Some r) ->
  let rel_path := hd EmptyString (fields_of l) in
  full_path r
  = drive_name ++ ":"
    ++ (if Py.nonempty (clean dir_path) then clean dir_path ++ "/" else EmptyString)
    ++ rel_path
  /\ drive r = drive_name
  /\ clean dir_path = Py.strip (Py.is_char Py.slash) dir_path
  /\ Py.lstrip (Py.is_char Py.slash) (clean dir_path) = clean dir_path
  /\ Py.rstrip (Py.is_char Py.slash) (clean dir_path) = clean dir_path
  /\ scoped_target drive_name dir_path = drive_name ++ ":" ++ clean dir_path
  /\ (dir_path = "/a/b/" -> rel_path = "c.txt" ->
      full_path r = drive_name ++ ":a/b/c.txt"
      /\ scoped_target drive_name dir_path = drive_name ++ ":a/b")
  /\ (dir_path = EmptyString -> rel_path = "c.txt" ->
      full_path r = drive_name ++ ":c.txt"
      /\ scoped_target drive_name dir_path = drive_name ++ ":").
Proof.
  intros Hr rel_path.
  assert (Hstrip : Py.rstrip (Py.is_char Py.slash) (clean dir_path) = clean dir_path).
  { rewrite clean_is_strip. apply strip_no_trailing. }
  assert (Hpath : full_path r
                  = drive_name ++ ":"
                    ++ (if Py.nonempty (clean dir_path)
                        then clean dir_path ++ "/" else EmptyString)
                    ++ rel_path
                  /\ drive r = drive_name).
  { rewrite line_record_unfold in Hr.
    destruct (is_record_line l); [|discriminate].
    destruct (size_of l); [|discriminate].
    injection Hr as <-. cbn [full_path drive]. unfold prefix_of. now rewrite Hstrip. }
  assert (Hscoped : scoped_target drive_name dir_path = drive_name ++ ":" ++ clean dir_path).
  { unfold scoped_target. now destruct (clean dir_path). }
  destruct Hpath as [Hfull Hdrive]. splits; auto.
  - apply clean_is_strip.
  - rewrite clean_is_strip. apply strip_no_leading.
  - intros -> Hrel. rewrite Hfull, Hscoped, Hrel. split; reflexivity.
  - intros -> Hrel. rewrite Hfull, Hscoped, Hrel. split; reflexivity.
Qed.

Lemma path_construction_witness :
  full_path (mkRecord "r:a/b/c.txt" "r" 12 "f" (Some "2024-01-01 10:00:00")) = "r:a/b/c.txt"
  /\ scoped_target "r" "/a/b/" = "r:a/b".
Proof.
  refine (proj1 (proj2 (proj2 (proj2 (proj2 (proj2 (proj2
            (path_construction "r" "/a/b/" (line ["c.txt"; "f"; "12"; "2024-01-01 10:00:00"])
               (mkRecord "r:a/b/c.txt" "r" 12 "f" (Some "2024-01-01 10:00:00")) _))))))) _ _).
  - reflexivity.
  - reflexivity.
  - reflexivity.
Defined.


(** ** Progress (C6) *)

Lemma counting_above (k : nat) : forall (n x : Z), In x (counting n k) -> n < x.
Proof.
  induction k as [|k IH]; intros n x; [intros []|].
  rewrite counting_succ. intros [<-|H]; [lia|]. apply IH in H. lia.
Qed.

Lemma counting_sorted (k : nat) : forall n : Z, StronglySorted Z.le (n :: counting n k).
Proof.
  induction k as [|k IH]; intros n.
  - repeat constructor.
  - rewrite counting_succ. constructor.
    + apply IH.
    + constructor; [lia|]. apply Forall_forall. intros x Hx.
      apply counting_above in Hx. lia.
Qed.

Lemma counting_last (k : nat) : forall n d : Z, last (n :: counting n k) d = n + Z.of_nat k.
Proof.
  induction k as [|k IH]; intros n d.
  - cbn. lia.
  - rewrite counting_succ.
    change (last (n :: (n + 1) :: counting (n + 1) k) d)
      with (last ((n + 1) :: counting (n + 1) k) d).
    rewrite IH. lia.
Qed.

(** C6. In every run the values given to processed_count are 0, 1, ..., k
    in this order: it is set to 0 once, and each later update adds one.
    total_count is set at most once, and when it is set no target has been
    listed and processed_count has not been set yet.  When the run
    completes, processed_count is the number returned, which is the number
    of records written to the catalogue and the number of lines with a
    relative path in the listings: skipped lines are not counted. *)
Theorem progress_monotone (self : datasource) (env : environment) (w : world) :
  let o := fetch self env w in
  (processed_values (calls o) = []
   \/ exists k, processed_values (calls o) = 0 :: counting 0 k)
  /\ StronglySorted Z.le (processed_values (calls o))
  /\ (calls o = []
      \/ exists before n later,
           calls o = (before ++ EvSetTotal n :: later)%list
           /\ lsf_calls before = [] /\ processed_values before = []
           /\ total_values before = [] /\ total_values later = [])
  /\ (forall s, returned o = Ok s ->
        processed_items (state (after o)) = total_indexed s
        /\ last (processed_values (calls o)) 0 = total_indexed s
        /\ total_indexed s = len (committed (calls o))
        /\ exists targets,
             _resolve_targets self (config_sections env) = Ok targets
             /\ committed (calls o) = all_records env targets
             /\ total_indexed s = Z.of_nat (nat_sum (map (record_lines env) targets))).
Proof.
  cbn zeta. rewrite fetch_unfold.
  destruct (negb (config_exists env));
    [cbn [calls returned]; splits; auto; [constructor|discriminate]|].
  destruct (negb (rclone_installed env));
    [cbn [calls returned]; splits; auto; [constructor|discriminate]|].
  destruct (_resolve_targets self (config_sections env)) as [[|tg targets]|e] eqn:Hres;
    [cbn [calls returned]; splits; auto; [constructor|discriminate]| |
     cbn [calls returned]; splits; auto; [constructor|discriminate]].
  set (ts := tg :: targets) in *.
  destruct (fetch_targets_calls self env ts w) as (epilogue & Hcalls & Hl & Hc & Hp & Ht).
  destruct (fetch_targets_state self env ts w) as (Hcat & Htot & Hproc).
  destruct (prologue_reading self env ts w) as (Hpl & Hpc & Hpp & Hpt).
  destruct (index_targets_any env ts 0 (started env ts w))
    as (Htv & Htot' & _ & k & Hvals & Hstate & Hret).
  cbn zeta in Htv, Htot', Hvals, Hstate, Hret, Hcat, Htot, Hproc.
  assert (Hvalues : processed_values (calls (fetch_targets self env ts w)) = 0 :: counting 0 k).
  { rewrite Hcalls, !processed_values_app, Hpp, Hvals, Hp, app_nil_r. reflexivity. }
  splits.
  - right. exists k. exact Hvalues.
  - rewrite Hvalues. apply counting_sorted.
  - right.
    exists ([EvMakedirs (sqlite_path self); EvConnect (sqlite_path self)]
            ++ map (fun t => EvSize (scoped t)) ts)%list,
           (sum (map (counted env) ts)),
           ([EvSetProcessed 0]
            ++ emit_events env (state (started env ts w))
            ++ calls (index_targets env ts 0 (started env ts w)) ++ epilogue)%list.
    destruct (size_calls_reading ts) as (H1 & _ & H3 & H4).
    splits.
    + rewrite Hcalls. unfold prologue, started. rewrite <- !app_assoc. reflexivity.
    + now rewrite lsf_calls_app, H1.
    + now rewrite processed_values_app, H3.
    + now rewrite total_values_app, H4.
    + rewrite !total_values_app, total_values_emit, Htv, Ht. reflexivity.
  - intros s Hs. unfold fetch_targets in Hs.
    destruct (returned (index_targets env ts 0 (started env ts w))) as [n'|e] eqn:Ho;
      [|discriminate].
    injection Hs as <-. cbn [total_indexed].
    destruct (Hret n' eq_refl) as (-> & Hk & Hk' & Hcom & _).
    rewrite Hproc, Hvalues, counting_last, Hstate by reflexivity.
    assert (Hcommitted : committed (calls (fetch_targets self env ts w)) = all_records env ts).
    { rewrite Hcalls, !committed_app, Hpc, Hcom, Hc, app_nil_r. reflexivity. }
    rewrite Hcommitted. splits; auto.
    + unfold len. now rewrite <- Hk'.
    + exists ts. splits; auto. now rewrite <- Hk.
Qed.

(** ** The target resolver (C7, C8) *)

Lemma member_in (x : string) (xs : list string) : Py.member x xs = true <-> In x xs.
Proof.
  unfold Py.member. rewrite existsb_exists. split.
  - intros (y & Hy & E). apply String.eqb_eq in E. now subst.
  - intros H. exists x. split; [exact H|apply String.eqb_refl].
Qed.

Lemma resolve_targets_unfold (self : datasource) (registry : list (string * list (string * string))) :
  _resolve_targets self registry
  = match filter (fun d => negb (Py.member d (map fst registry))) (selected self registry) with
    | [] => Ok (product (selected self registry) (directories self))
    | d :: missing => Raise (unknown_remote (d :: missing))
    end.
Proof.
  unfold _resolve_targets, selected, product, unknown_remote.
  now destruct (filter _ _).
Qed.

Lemma all_keys_present (keys : list string) :
  filter (fun d => negb (Py.member d keys)) keys = [].
Proof.
  assert (H : forall l, (forall x, In x l -> In x keys) ->
                        filter (fun d => negb (Py.member d keys)) l = []).
  { induction l as [|x l IH]; intros Hl; [reflexivity|]. cbn [filter].
    assert (Hx : Py.member x keys = true) by (apply member_in, Hl; now left).
    rewrite Hx. cbn [negb]. apply IH. intros y Hy. apply Hl. now right. }
  apply H. auto.
Qed.

Lemma in_missing (self : datasource) (env : environment) (x : string) :
  In x (missing_remotes self env)
  <-> In x (drives self) /\ ~ In x (map fst (config_sections env)).
Proof.
  unfold missing_remotes. rewrite filter_In, negb_true_iff, <- not_true_iff_false, member_in.
  tauto.
Qed.

(** C7. When a requested remote is not in the registry, the run fails with
    the error that lists the requested names missing from the registry, all
    of them and only them, and it does so without any call to the outside
    and without changing the world: the catalogue file and its directory are
    neither created nor opened. *)
Theorem unknown_remote_rejection
    (self : datasource) (env : environment) (w : world) (d : string) :
  config_exists env = true ->
  rclone_installed env = true ->
  In d (drives self) ->
  ~ In d (map fst (config_sections env)) ->
  fetch self env w = mkOutcome (Raise (unknown_remote (missing_remotes self env))) w []
  /\ (forall x, In x (missing_remotes self env)
                <-> In x (drives self) /\ ~ In x (map fst (config_sections env)))
  /\ Forall (fun e => touches_catalog e = false) (calls (fetch self env w))
  /\ catalog (after (fetch self env w)) = catalog w.
Proof.
  intros Hcfg Hbin Hd Hmiss.
  assert (Hin : In d (missing_remotes self env)) by (apply in_missing; auto).
  assert (Hfetch : fetch self env w
                   = mkOutcome (Raise (unknown_remote (missing_remotes self env))) w []).
  { rewrite fetch_unfold, Hcfg, Hbin. cbn [negb].
    rewrite resolve_targets_unfold. unfold missing_remotes in *. unfold selected.
    destruct (drives self) as [|d0 ds] eqn:E; [contradiction|].
    destruct (filter _ (d0 :: ds)); [contradiction|reflexivity]. }
  rewrite Hfetch. cbn [calls after]. splits; auto. apply in_missing.
Qed.

Lemma unknown_remote_rejection_witness :
  fetch unknown_remote_request sample_env fresh_world
  = mkOutcome (Raise (ValueError "Requested remotes not in config: x")) fresh_world [].
Proof.
  refine (proj1 (unknown_remote_rejection unknown_remote_request sample_env fresh_world "x"
                   _ _ _ _)).
  - reflexivity.
  - reflexivity.
  - right. left. reflexivity.
  - cbn. intros [H|[H|[]]]; discriminate.
Defined.

Lemma size_of_raise (line : string) (e : exn) :
  size_of line = Raise e -> e <> no_targets.
Proof.
  unfold size_of, int.
  destruct ((2 <? len (fields_of line)) && Py.isdigit (nth 2 (fields_of line) EmptyString));
    [|discriminate].
  destruct (Py.isdecimal _ && _); [discriminate|].
  intros [= <-]. unfold invalid_literal, no_targets, digit_limit_message.
  destruct (_ <? _)%nat; cbn [append]; discriminate.
Qed.

Lemma line_record_raise (drive_name clean_dir line : string) (e : exn) :
  line_record drive_name clean_dir line = Raise e -> e <> no_targets.
Proof.
  rewrite line_record_unfold. destruct (is_record_line line); [|discriminate].
  destruct (size_of line) as [z|e'] eqn:E; [discriminate|].
  intros [= ->]. now apply (size_of_raise line).
Qed.

Lemma flush_failure_not_no_targets (c : option table) : flush_failure c <> no_targets.
Proof. destruct c; discriminate. Qed.

Lemma index_lines_targets_found (env : environment) (drive_name clean_dir : string) :
  forall (lines : list string) (batch : list record) (n : Z) (w : world),
    returned (for_each (index_line env drive_name clean_dir) lines (batch, n) w)
    <> Raise no_targets.
Proof.
  induction lines as [|line lines IH]; intros batch n w; [discriminate|].
  rewrite for_each_cons.
  line_cases env drive_name clean_dir batch n w line; cbn [returned after calls];
    try apply IH.
  - intros [= ->]. now apply (line_record_raise drive_name clean_dir line no_targets).
  - intros [= E]. now apply (flush_failure_not_no_targets (catalog w)).
Qed.

Lemma index_target_targets_found (env : environment) (tg : scan_target) (n : Z) (w : world) :
  returned (_index_target env (fst tg) (snd tg) n w) <> Raise no_targets.
Proof.
  destruct tg as [drive_name dir_path]. cbn [fst snd].
  rewrite index_target_unfold. cbn zeta.
  pose proof (index_lines_targets_found env drive_name (clean dir_path)
                (lsf_stdout (listing env (drive_name, dir_path))) [] n w) as H.
  destruct (returned (for_each _ _ _ w)) as [[batch processed]|e]; cbn [returned];
    [|intros [= ->]; now apply H].
  destruct (negb _); cbn [returned]; [discriminate|].
  destruct batch as [|r batch]; cbn [returned]; [discriminate|].
  destruct (flush_batch_cases (r :: batch)
              (after (for_each (index_line env drive_name (clean dir_path))
                        (lsf_stdout (listing env (drive_name, dir_path))) ([], n) w)))
    as [(t & _ & Hf)|Hf]; rewrite Hf; cbn [returned]; [discriminate|].
  intros [= E]. now apply (flush_failure_not_no_targets _ E).
Qed.

Lemma index_targets_targets_found (env : environment) :
  forall (targets : list scan_target) (n : Z) (w : world),
    returned (index_targets env targets n w) <> Raise no_targets.
Proof.
  induction targets as [|tg targets IH]; intros n w; [discriminate|].
  rewrite index_targets_cons. cbn zeta.
  pose proof (index_target_targets_found env tg n w) as H.
  destruct (returned (_index_target env (fst tg) (snd tg) n w)); cbn [returned];
    [apply IH|exact H].
Qed.

Lemma product_nil (remotes directories : list string) :
  product remotes directories = [] -> remotes = [] \/ directories = [].
Proof.
  destruct remotes as [|r remotes]; [auto|].
  destruct directories as [|d directories]; [auto|discriminate].
Qed.

Lemma init_directories (ps : params) : directories (__init__ ps) <> [].
Proof.
  unfold __init__; cbn [directories].
  destruct (comma_separated _); discriminate.
Qed.

(** C8. The directory list of the data source always holds at least the
    root entry, so the resolver, which returns the product of the selected
    remotes and the directories (remotes in the outer loop), returns the
    empty list only when the registry is empty and no remote is requested.
    With a registry that is not empty and a selection that is empty or made
    of registered names, the list has a first target, and whatever the
    selection the run never fails for want of targets. *)
Theorem targets_found_unless_registry_empty
    (ps : params) (env : environment) (w : world) :
  let self := __init__ ps in
  let registry := config_sections env in
  directories self <> []
  /\ (forall targets, _resolve_targets self registry = Ok targets ->
        targets = product (selected self registry) (directories self))
  /\ (_resolve_targets self registry = Ok [] <-> registry = [] /\ drives self = [])
  /\ (registry <> [] ->
      (forall d, In d (drives self) -> In d (map fst registry)) ->
      exists tg targets, _resolve_targets self registry = Ok (tg :: targets))
  /\ (registry <> [] -> returned (fetch self env w) <> Raise no_targets).
Proof.
  intros self registry.
  pose proof (init_directories ps) as Hdirs. fold self in Hdirs.
  assert (Hempty : _resolve_targets self registry = Ok [] <-> registry = [] /\ drives self = []).
  { rewrite resolve_targets_unfold. split.
    - destruct (filter _ _); [|discriminate]. intros [= H].
      apply product_nil in H as [H|H]; [|contradiction].
      unfold selected in H. destruct (drives self); [|discriminate].
      split; [|reflexivity]. now destruct registry.
    - intros [-> Hd]. unfold selected. rewrite Hd. reflexivity. }
  splits; auto.
  - intros targets. rewrite resolve_targets_unfold.
    destruct (filter _ _); [|discriminate]. now intros [= <-].
  - intros Hreg Hvalid.
    destruct (_resolve_targets self registry) as [[|tg targets]|e] eqn:E.
    + pose proof (proj1 Hempty eq_refl). tauto.
    + eauto.
    + exfalso. rewrite resolve_targets_unfold in E. unfold selected in E.
      destruct (drives self) as [|d ds] eqn:Ed.
      * now rewrite all_keys_present in E.
      * destruct (filter _ (d :: ds)) as [|x missing] eqn:Ef; [discriminate|].
        assert (Hx : In x (filter (fun d => negb (Py.member d (map fst registry))) (d :: ds)))
          by (rewrite Ef; now left).
        apply filter_In in Hx as [Hx Hneg].
        apply Hvalid in Hx. apply member_in in Hx. rewrite Hx in Hneg. discriminate.
  - intros Hreg. rewrite fetch_unfold.
    destruct (negb (config_exists env)); [discriminate|].
    destruct (negb (rclone_installed env)); [discriminate|].
    fold registry.
    destruct (_resolve_targets self registry) as [[|tg targets]|e] eqn:E; cbn [returned].
    + pose proof (proj1 Hempty eq_refl). tauto.
    + unfold fetch_targets.
      pose proof (index_targets_targets_found env (tg :: targets) 0
                    (started env (tg :: targets) w)) as H.
      destruct (returned (index_targets env (tg :: targets) 0 _)); cbn [returned];
        [discriminate|]. intros [= ->]. now apply H.
    + rewrite resolve_targets_unfold in E.
      destruct (filter _ _); [discriminate|]. injection E as <-. discriminate.
Qed.

(** ** Progress emission (C9) *)



Section Emitters.

Variable env : environment.
Variable emit : option (progress -> raises).





End Emitters.




(** A channel that fails on the first update: the run completes. *)
Example emission_failure_is_discarded :
  emit_progress sample_env
  = Some (fun p => if processed_items p =? 1
                   then Some (OtherException "BrokenPipeError" "progress channel closed")
                   else None)
  /\ In (EvEmit {| total_items := 2; processed_items := 1; fetch_completed := false |})
        (calls (fetch single_request sample_env fresh_world))
  /\ returned (fetch single_request sample_env fresh_world)
     = Ok {| db_path := "my_files.sqlite"; total_indexed := 2; remotes := ["a"] |}.
Proof. splits; [reflexivity| |reflexivity]. vm_compute. do 8 right. left. reflexivity. Qed.

(** ** A failed listing (C10) *)

Lemma last_write_none (batch : list record) (p : string) :
  ~ In p (map full_path batch) -> last_write batch p = None.
Proof.
  induction batch as [|r batch IH]; cbn [map In last_write]; [reflexivity|].
  intros H. rewrite IH by tauto.
  destruct (String.eqb_spec (full_path r) p); [tauto|reflexivity].
Qed.

Lemma tail_length (n : nat) {A} (l : list A) :
  n = List.length l ->
  List.length (skipn (complete n) l) = (n mod 500)%nat.
Proof.
  intros ->. rewrite length_skipn. unfold complete.
  pose proof (Nat.div_mod_eq (List.length l) 500). lia.
Qed.

(** C10. When the listing of a target goes through but the subprocess ends
    with a non-zero status, the ingestor raises the listing failure before
    the final flush: the catalogue has received the complete batches of 500
    only, on top of what it held before this target, and the records parsed
    since the last complete batch are written nowhere. *)
Theorem listing_failure_drops_partial_batch
    (env : environment) (tg : scan_target) (n : Z) (w : world) (t : table) :
  catalog w = Some t ->
  Forall (fun l => harmless l = true) (lsf_stdout (listing env tg)) ->
  lsf_returncode (listing env tg) <> 0 ->
  let recs := target_records env tg in
  let kept := firstn (complete (List.length recs)) recs in
  let dropped := skipn (complete (List.length recs)) recs in
  let o := _index_target env (fst tg) (snd tg) n w in
  returned o = Raise (listing_failed env tg)
  /\ recs = (kept ++ dropped)%list
  /\ List.length dropped = (List.length recs mod 500)%nat
  /\ committed (calls o) = kept
  /\ Forall (fun b => len b = batch_size) (commits (calls o))
  /\ catalog (after o) = Some (executemany t kept)
  /\ (forall r, In r dropped ->
        select t (full_path r) = None ->
        ~ In (full_path r) (map full_path kept) ->
        select (opened (catalog (after o))) (full_path r) = None).
Proof.
  intros Hc Hlines Hrc recs kept dropped o.
  destruct (index_target_fails env tg n w t Hc Hlines Hrc) as (Hret & Hcat & Hcom & Hfull).
  fold recs kept o in Hret, Hcat, Hcom, Hfull.
  splits; auto.
  - symmetry. apply firstn_skipn.
  - now apply tail_length.
  - intros r _ Hnew Hnotkept. rewrite Hcat. cbn [opened].
    rewrite select_executemany, last_write_none by exact Hnotkept. exact Hnew.
Qed.

Lemma listing_failure_drops_partial_batch_witness :
  returned (_index_target sample_env "b" "/photos/" 0 sample_world)
  = Raise (RuntimeError "rclone lsf failed for b:photos: directory not found")
  /\ catalog (after (_index_target sample_env "b" "/photos/" 0 sample_world))
     = Some Sqlite.empty.
Proof.
  pose proof (listing_failure_drops_partial_batch sample_env ("b", "/photos/") 0 sample_world
                Sqlite.empty eq_refl) as H.
  cbv zeta in H.
  refine ((fun H' => conj (proj1 H') (proj1 (proj2 (proj2 (proj2 (proj2 (proj2 H'))))))) (H _ _)).
  - repeat constructor.
  - discriminate.
Defined.

(** * More properties of the code *)

(** ** Splitting and stripping *)

Lemma all_chars_app (p : ascii -> bool) (s t : string) :
  Py.all_chars p (s ++ t) = Py.all_chars p s && Py.all_chars p t.
Proof.
  induction s as [|c s IH]; cbn [String.append Py.all_chars]; [reflexivity|].
  now rewrite IH, andb_assoc.
Qed.

Lemma split_free (sep : ascii) (s : string) :
  free_of sep s = true -> Py.split sep s = [s].
Proof.
  unfold free_of. induction s as [|c s IH]; cbn [Py.all_chars Py.split]; [reflexivity|].
  intros H. apply andb_prop in H as [Hc Hs].
  apply negb_true_iff in Hc. rewrite Hc, (IH Hs). reflexivity.
Qed.

Lemma split_app_sep (sep : ascii) (s t : string) :
  free_of sep s = true ->
  Py.split sep (s ++ String sep t) = s :: Py.split sep t.
Proof.
  unfold free_of. induction s as [|c s IH]; cbn [Py.all_chars String.append Py.split].
  - intros _. now rewrite Ascii.eqb_refl.
  - intros H. apply andb_prop in H as [Hc Hs].
    apply negb_true_iff in Hc. rewrite Hc, (IH Hs). reflexivity.
Qed.

Lemma split_join (sep : ascii) (fields : list string) :
  fields <> [] ->
  Forall (fun f => free_of sep f = true) fields ->
  Py.split sep (Py.join (String sep EmptyString) fields) = fields.
Proof.
  intros Hne H. induction H as [|f fields Hf Hfields IH]; [contradiction|].
  destruct fields as [|g fields].
  - cbn [Py.join]. now apply split_free.
  - change (Py.join (String sep EmptyString) (f :: g :: fields))
      with (f ++ String sep (Py.join (String sep EmptyString) (g :: fields))).
    rewrite split_app_sep by exact Hf. f_equal. apply IH. discriminate.
Qed.

(** The fields of a split have no separator in them. *)
Lemma split_fields_free (sep : ascii) (s : string) :
  Forall (fun f => free_of sep f = true) (Py.split sep s).
Proof.
  induction s as [|c s IH]; cbn [Py.split]; [repeat constructor|].
  destruct (Ascii.eqb c sep) eqn:E.
  - constructor; [reflexivity|exact IH].
  - destruct (Py.split sep s) as [|f fields]; [repeat constructor; cbn; now rewrite E|].
    inversion IH as [|? ? Hf Hfields]; subst.
    constructor; [|exact Hfields]. unfold free_of in *. cbn [Py.all_chars].
    now rewrite E, Hf.
Qed.

Lemma rstrip_app_char (p : ascii -> bool) (c : ascii) (s : string) :
  p c = true -> Py.rstrip p (s ++ String c EmptyString) = Py.rstrip p s.
Proof.
  intros Hc. induction s as [|a s IH]; cbn [String.append Py.rstrip].
  - now rewrite Hc.
  - now rewrite IH.
Qed.

Lemma rstrip_nothing (p : ascii -> bool) (s : string) :
  Py.all_chars (fun x => negb (p x)) s = true -> Py.rstrip p s = s.
Proof.
  induction s as [|a s IH]; cbn [Py.all_chars Py.rstrip]; [reflexivity|].
  intros H. apply andb_prop in H as [Ha Hs]. rewrite (IH Hs).
  apply negb_true_iff in Ha. rewrite Ha. now destruct s.
Qed.

Lemma all_chars_lstrip (q p : ascii -> bool) (s : string) :
  Py.all_chars q s = true -> Py.all_chars q (Py.lstrip p s) = true.
Proof.
  induction s as [|a s IH]; cbn [Py.all_chars Py.lstrip]; [reflexivity|].
  intros H. destruct (p a); [|exact H]. apply andb_prop in H as [_ Hs]. now apply IH.
Qed.

Lemma all_chars_rstrip (q p : ascii -> bool) (s : string) :
  Py.all_chars q s = true -> Py.all_chars q (Py.rstrip p s) = true.
Proof.
  induction s as [|a s IH]; cbn [Py.all_chars Py.rstrip]; [reflexivity|].
  intros H. apply andb_prop in H as [Ha Hs]. specialize (IH Hs).
  destruct (Py.rstrip p s) as [|b kept].
  - destruct (p a); cbn [Py.all_chars]; [reflexivity|now rewrite Ha].
  - cbn [Py.all_chars] in *. now rewrite Ha, IH.
Qed.

Lemma strip_idempotent (p : ascii -> bool) (s : string) :
  Py.strip p (Py.strip p s) = Py.strip p s.
Proof.
  unfold Py.strip at 1. rewrite strip_no_leading. apply strip_no_trailing.
Qed.

Lemma nonempty_spec (s : string) : Py.nonempty s = true <-> s <> EmptyString.
Proof. destruct s; cbn; split; congruence. Qed.

(** ** Reading a line of the listing *)

Lemma all_chars_join (q : ascii -> bool) (sep : string) (fields : list string) :
  Py.all_chars q sep = true ->
  Forall (fun f => Py.all_chars q f = true) fields ->
  Py.all_chars q (Py.join sep fields) = true.
Proof.
  intros Hsep H. induction H as [|f fields Hf _ IH]; [reflexivity|].
  destruct fields as [|g fields]; [exact Hf|].
  change (Py.join sep (f :: g :: fields)) with (f ++ sep ++ Py.join sep (g :: fields)).
  now rewrite !all_chars_app, Hf, Hsep, IH.
Qed.

Lemma fields_of_line (fields : list string) :
  fields <> [] ->
  Forall (fun f => plain_field f = true) fields ->
  fields_of (line fields) = fields.
Proof.
  intros Hne Hplain. unfold fields_of, line.
  assert (Htab : Forall (fun f => free_of Py.tab f = true) fields).
  { eapply Forall_impl; [|exact Hplain]. intros f Hf. now apply andb_prop in Hf. }
  assert (Hnl : Forall (fun f => Py.all_chars (fun x => negb (Py.is_char Py.newline x)) f = true)
                       fields).
  { eapply Forall_impl; [|exact Hplain]. intros f Hf. apply andb_prop in Hf as [_ Hf].
    unfold free_of in Hf. unfold Py.is_char.
    rewrite <- Hf. clear. induction f as [|c f IH]; [reflexivity|].
    cbn [Py.all_chars]. now rewrite IH, Ascii.eqb_sym. }
  rewrite rstrip_app_char by reflexivity.
  rewrite rstrip_nothing.
  - now apply split_join.
  - apply all_chars_join; [reflexivity|exact Hnl].
Qed.

(** X1. Reading is the inverse of the listing format: a line made of fields
    that hold neither a tab nor a line end, joined by tabs and ended by a
    line end, is split back into exactly these fields. *)
Theorem listing_line_round_trip (fields : list string) :
  fields <> [] ->
  Forall (fun f => plain_field f = true) fields ->
  fields_of (line fields) = fields
  /\ is_record_line (line fields) = Py.nonempty (hd EmptyString fields).
Proof.
  intros Hne Hplain. unfold is_record_line.
  now rewrite fields_of_line.
Qed.

Lemma listing_line_round_trip_witness :
  fields_of (line ["docs/report 2024.pdf"; "f"; "1048576"; "2024-03-01 09:30:00"])
  = ["docs/report 2024.pdf"; "f"; "1048576"; "2024-03-01 09:30:00"].
Proof.
  refine (proj1 (listing_line_round_trip
                   ["docs/report 2024.pdf"; "f"; "1048576"; "2024-03-01 09:30:00"] _ _)).
  - discriminate.
  - repeat constructor.
Defined.

Lemma isdecimal_isdigit (s : string) : Py.isdecimal s = true -> Py.isdigit s = true.
Proof.
  destruct s as [|c s]; [discriminate|]. unfold Py.isdecimal, Py.isdigit.
  generalize (String c s). clear. intros s.
  induction s as [|c s IH]; cbn [Py.all_chars]; [reflexivity|].
  intros H. apply andb_prop in H as [Hc Hs]. rewrite (IH Hs).
  unfold Py.isdigit_char. now rewrite Hc.
Qed.

Lemma leading_digits_decimal (s : string) :
  Py.isdecimal s = true -> leading_digits s = String.length s.
Proof.
  destruct s as [|c s]; [discriminate|]. unfold Py.isdecimal.
  generalize (String c s). clear. intros s.
  induction s as [|c s IH]; cbn [Py.all_chars leading_digits String.length]; [reflexivity|].
  intros H. apply andb_prop in H as [Hc Hs]. now rewrite Hc, (IH Hs).
Qed.

(** X2. A complete line (relative path, type, size, modification time)
    gives the record of its four fields under the full path.  The size is
    the value of the size field when it is a decimal number of at most 4300
    digits, the interpreter's default limit for [int], and 0 when the field
    is not made of digits.  A size field that [isdigit] accepts and [int]
    does not read, because its digits are not all decimal (a superscript
    two, for one) or because there are more than 4300 of them, makes the
    line raise [ValueError] instead of reading as 0 or as its value. *)
Theorem complete_line_record (drive_name clean_dir p t s m : string) :
  p <> EmptyString ->
  Forall (fun f => plain_field f = true) [p; t; s; m] ->
  (Py.isdecimal s = true -> (String.length s <= max_str_digits)%nat ->
   line_record drive_name clean_dir (line [p; t; s; m])
   = Ok (Some (mkRecord (drive_name ++ ":" ++ prefix_of clean_dir ++ p) drive_name
                        (Py.decimal_value 0 s) t (Some m))))
  /\ (Py.isdigit s = false ->
      line_record drive_name clean_dir (line [p; t; s; m])
      = Ok (Some (mkRecord (drive_name ++ ":" ++ prefix_of clean_dir ++ p) drive_name
                           0 t (Some m))))
  /\ (Py.isdigit s = true ->
      Py.isdecimal s = false \/ (max_str_digits < String.length s)%nat ->
      line_record drive_name clean_dir (line [p; t; s; m]) = Raise (invalid_literal s))
  /\ (Py.isdecimal s = true -> (max_str_digits < String.length s)%nat ->
      invalid_literal s = ValueError (digit_limit_message (String.length s)))
  /\ ((leading_digits s <= max_str_digits)%nat ->
      invalid_literal s
      = ValueError ("invalid literal for int() with base 10: "
                    ++ substring 0 200 ("'" ++ s ++ "'"))).
Proof.
  intros Hp Hplain.
  assert (Hfields : fields_of (line [p; t; s; m]) = [p; t; s; m])
    by (apply fields_of_line; [discriminate|exact Hplain]).
  assert (Hrec : is_record_line (line [p; t; s; m]) = true).
  { unfold is_record_line. rewrite Hfields. now apply nonempty_spec. }
  splits.
  - intros Hdec Hlen. rewrite line_record_unfold, Hrec. unfold size_of, int.
    rewrite Hfields. cbn [nth hd]. change (2 <? len [p; t; s; m]) with true.
    cbn [andb]. apply Nat.leb_le in Hlen.
    now rewrite (isdecimal_isdigit s Hdec), Hdec, Hlen.
  - intros Hdig. rewrite line_record_unfold, Hrec. unfold size_of.
    rewrite Hfields. cbn [nth hd]. change (2 <? len [p; t; s; m]) with true.
    cbn [andb]. now rewrite Hdig.
  - intros Hdig Hbad. rewrite line_record_unfold, Hrec. unfold size_of, int.
    rewrite Hfields. cbn [nth hd]. change (2 <? len [p; t; s; m]) with true.
    cbn [andb]. rewrite Hdig.
    assert (Hno : Py.isdecimal s && (String.length s <=? max_str_digits)%nat = false).
    { destruct Hbad as [Hdec|Hlong]; [now rewrite Hdec|].
      apply Nat.leb_gt in Hlong. rewrite Hlong. apply andb_false_r. }
    now rewrite Hno.
  - intros Hdec Hlong. unfold invalid_literal.
    rewrite (leading_digits_decimal s Hdec).
    apply Nat.ltb_lt in Hlong. now rewrite Hlong.
  - intros Hshort. unfold invalid_literal.
    apply Nat.ltb_ge in Hshort. now rewrite Hshort.
Qed.

Lemma complete_line_record_witness :
  line_record "gdrive" "photos/2024"
    (line ["trip/img_001.jpg"; "f"; "2048"; "2024-05-01 12:00:00"])
  = Ok (Some (mkRecord "gdrive:photos/2024/trip/img_001.jpg" "gdrive" 2048 "f"
                       (Some "2024-05-01 12:00:00")))
  /\ line_record "gdrive" "photos/2024"
       (line ["trip/img_002.jpg"; "f"; "-1"; "2024-05-01 12:00:00"])
     = Ok (Some (mkRecord "gdrive:photos/2024/trip/img_002.jpg" "gdrive" 0 "f"
                          (Some "2024-05-01 12:00:00"))).
Proof.
  split.
  - refine (proj1 (complete_line_record "gdrive" "photos/2024" "trip/img_001.jpg" "f" "2048"
                     "2024-05-01 12:00:00" _ _) _ _).
    + discriminate.
    + repeat constructor.
    + reflexivity.
    + apply Nat.leb_le. reflexivity.
  - refine (proj1 (proj2 (complete_line_record "gdrive" "photos/2024" "trip/img_002.jpg" "f"
                            "-1" "2024-05-01 12:00:00" _ _)) _).
    + discriminate.
    + repeat constructor.
    + reflexivity.
Defined.

(** X3. Every record the loop builds carries the remote name and a size
    that is not negative: a size field that is absent, empty, negative,
    fractional or otherwise not made of digits is stored as 0. *)
Theorem record_size_nonnegative (drive_name clean_dir l : string) (r : record) :
  line_record drive_name clean_dir l = Ok (Some r) ->
  0 <= size r
  /\ drive r = drive_name
  /\ (Py.isdigit (nth 2 (fields_of l) EmptyString) = false -> size r = 0)
  /\ (len (fields_of l) <= 2 -> size r = 0).
Proof.
  rewrite line_record_unfold.
  destruct (is_record_line l); [|discriminate].
  destruct (size_of l) as [z|e] eqn:Hz; [|discriminate].
  intros [= <-]. cbn [size drive].
  assert (Hnonneg : 0 <= z).
  { unfold size_of, int in Hz.
    destruct ((2 <? len (fields_of l)) && Py.isdigit (nth 2 (fields_of l) EmptyString)).
    - destruct (Py.isdecimal (nth 2 (fields_of l) EmptyString)) eqn:Hdec; [|discriminate].
      destruct (_ <=? _)%nat; [|discriminate].
      injection Hz as <-. now apply isdecimal_nonneg.
    - injection Hz as <-. lia. }
  splits; auto.
  - intros Hdig. unfold size_of in Hz. rewrite Hdig, andb_false_r in Hz. congruence.
  - intros Hlen. unfold size_of in Hz.
    replace (2 <? len (fields_of l)) with false in Hz; [cbn in Hz; congruence|].
    symmetry. apply Z.ltb_ge. exact Hlen.
Qed.

Lemma record_size_nonnegative_witness :
  0 <= size (mkRecord "a:x.txt" "a" 0 "f" (Some "n/a")).
Proof.
  refine (proj1 (record_size_nonnegative "a" EmptyString (line ["x.txt"; "f"; "1.5"; "n/a"])
                   (mkRecord "a:x.txt" "a" 0 "f" (Some "n/a")) _)).
  reflexivity.
Defined.

(** What the loop reads of the fields of a line. *)
Lemma line_record_of_fields (drive_name clean_dir l1 l2 : string) :
  hd EmptyString (fields_of l1) = hd EmptyString (fields_of l2) ->
  (forall k, (k < 4)%nat ->
             nth k (fields_of l1) EmptyString = nth k (fields_of l2) EmptyString
             /\ (Z.of_nat k <? len (fields_of l1)) = (Z.of_nat k <? len (fields_of l2))) ->
  line_record drive_name clean_dir l1 = line_record drive_name clean_dir l2.
Proof.
  intros Hhd H. rewrite !line_record_unfold. unfold is_record_line, size_of.
  destruct (H 1%nat ltac:(lia)) as [Hn1 Hl1].
  destruct (H 2%nat ltac:(lia)) as [Hn2 Hl2].
  destruct (H 3%nat ltac:(lia)) as [Hn3 Hl3].
  cbn [Z.of_nat Pos.of_succ_nat Pos.succ] in Hl1, Hl2, Hl3.
  now rewrite Hhd, Hn1, Hn2, Hn3, Hl1, Hl2, Hl3.
Qed.

Lemma nth_firstn {A} (k n : nat) (l : list A) (d : A) :
  (k < n)%nat -> nth k (firstn n l) d = nth k l d.
Proof.
  revert k l; induction n as [|n IH]; intros k l Hk; [lia|].
  destruct l as [|x l]; [now destruct k|].
  destruct k as [|k]; [reflexivity|]. cbn [firstn nth]. apply IH. lia.
Qed.

Lemma longer_firstn {A} (k n : nat) (l : list A) :
  (k < n)%nat ->
  (Z.of_nat k <? len (firstn n l)) = (Z.of_nat k <? len l).
Proof.
  intros Hk. unfold len. rewrite length_firstn.
  destruct (Z.ltb_spec (Z.of_nat k) (Z.of_nat (List.length l)));
    [apply Z.ltb_lt|apply Z.ltb_ge]; lia.
Qed.

(** X4. The record of a line depends on its first four fields only, and not
    on its line end: the columns after the modification time are ignored,
    and a last line without a line end is read like the others. *)
Theorem line_record_first_four_fields (drive_name clean_dir l1 l2 : string) :
  (firstn 4 (fields_of l1) = firstn 4 (fields_of l2) ->
   line_record drive_name clean_dir l1 = line_record drive_name clean_dir l2)
  /\ fields_of (l1 ++ String Py.newline EmptyString) = fields_of l1
  /\ line_record drive_name clean_dir (l1 ++ String Py.newline EmptyString)
     = line_record drive_name clean_dir l1.
Proof.
  assert (Hnl : fields_of (l1 ++ String Py.newline EmptyString) = fields_of l1).
  { unfold fields_of. now rewrite rstrip_app_char. }
  splits; auto.
  - intros H. apply line_record_of_fields.
    + assert (Hhd : forall l : list string, hd EmptyString (firstn 4 l) = hd EmptyString l)
        by (now intros [|x l]).
      now rewrite <- (Hhd (fields_of l1)), H, Hhd.
    + intros k Hk.
      rewrite <- (nth_firstn k 4 (fields_of l1)), <- (nth_firstn k 4 (fields_of l2)) by exact Hk.
      rewrite <- (longer_firstn k 4 (fields_of l1)), <- (longer_firstn k 4 (fields_of l2))
        by exact Hk.
      now rewrite H.
  - apply line_record_of_fields; now rewrite Hnl.
Qed.

(** ** Full paths and directories *)

Lemma append_cancel_l (s a b : string) : s ++ a = s ++ b -> a = b.
Proof.
  induction s as [|c s IH]; cbn [String.append]; [auto|].
  intros [= H]. now apply IH.
Qed.

Lemma append_assoc (a b c : string) : (a ++ b) ++ c = a ++ b ++ c.
Proof.
  induction a as [|x a IH]; cbn [String.append]; [reflexivity|]. now rewrite IH.
Qed.

Lemma line_record_full_path (drive_name clean_dir l : string) (r : record) :
  line_record drive_name clean_dir l = Ok (Some r) ->
  full_path r = drive_name ++ ":" ++ prefix_of clean_dir ++ hd EmptyString (fields_of l).
Proof.
  rewrite line_record_unfold. destruct (is_record_line l); [|discriminate].
  destruct (size_of l); [|discriminate]. now intros [= <-].
Qed.

Lemma records_of_paths (drive_name clean_dir : string) (lines : list string) (p : string) :
  In p (map full_path (records_of drive_name clean_dir lines)) ->
  exists l, In l lines
            /\ p = drive_name ++ ":" ++ prefix_of clean_dir ++ hd EmptyString (fields_of l).
Proof.
  induction lines as [|l lines IH]; [intros []|].
  rewrite records_of_cons, map_app, in_app_iff. intros [H|H].
  - destruct (line_record drive_name clean_dir l) as [[r|]|e] eqn:E; try contradiction.
    destruct H as [<-|[]]. exists l. split; [now left|].
    now apply line_record_full_path.
  - destruct (IH H) as (l' & Hl' & Hp). exists l'. split; [now right|exact Hp].
Qed.

(** X5. Under one target the full path is an injective key: two lines give
    records with the same full path exactly when they have the same
    relative path, so a listing whose relative paths are pairwise distinct
    gives records whose full paths are pairwise distinct. *)
Theorem full_path_injective (drive_name clean_dir : string) (lines : list string) :
  (forall l1 l2 r1 r2,
      line_record drive_name clean_dir l1 = Ok (Some r1) ->
      line_record drive_name clean_dir l2 = Ok (Some r2) ->
      (full_path r1 = full_path r2
       <-> hd EmptyString (fields_of l1) = hd EmptyString (fields_of l2)))
  /\ (NoDup (map (fun l => hd EmptyString (fields_of l)) lines) ->
      NoDup (map full_path (records_of drive_name clean_dir lines))).
Proof.
  split.
  - intros l1 l2 r1 r2 H1 H2.
    rewrite (line_record_full_path _ _ _ _ H1), (line_record_full_path _ _ _ _ H2).
    split; [|now intros ->].
    intros H. now do 3 apply append_cancel_l in H.
  - induction lines as [|l lines IH]; [constructor|].
    cbn [map]. intros Hnd. inversion Hnd as [|? ? Hnotin Hnd']; subst.
    rewrite records_of_cons, map_app. specialize (IH Hnd').
    destruct (line_record drive_name clean_dir l) as [[r|]|e] eqn:E; cbn [map app]; auto.
    constructor; [|exact IH].
    intros Hin. apply records_of_paths in Hin as (l' & Hl' & Hp).
    rewrite (line_record_full_path _ _ _ _ E) in Hp.
    do 3 apply append_cancel_l in Hp.
    apply Hnotin. rewrite Hp. now apply (in_map (fun l => hd EmptyString (fields_of l))).
Qed.

Lemma prefix_of_clean (dir_path : string) :
  prefix_of (clean dir_path)
  = if Py.nonempty (clean dir_path) then clean dir_path ++ "/" else EmptyString.
Proof.
  unfold prefix_of. now rewrite clean_is_strip, strip_no_trailing.
Qed.

(** X6. Listing a directory and listing the root give the same key to the
    same file: the full path built for the relative path [p] under the
    directory [d] is the one built under the root for the relative path
    [d/p].  Scanning both a directory and the root therefore writes each
    file of the directory under one path, not two. *)
Theorem nested_directory_same_key (drive_name dir_path l1 l2 : string) (r1 r2 : record) :
  clean dir_path <> EmptyString ->
  line_record drive_name (clean dir_path) l1 = Ok (Some r1) ->
  line_record drive_name (clean EmptyString) l2 = Ok (Some r2) ->
  hd EmptyString (fields_of l2) = clean dir_path ++ "/" ++ hd EmptyString (fields_of l1) ->
  full_path r1 = full_path r2.
Proof.
  intros Hdir H1 H2 Hrel.
  rewrite (line_record_full_path _ _ _ _ H1), (line_record_full_path _ _ _ _ H2), Hrel.
  rewrite prefix_of_clean. apply nonempty_spec in Hdir. rewrite Hdir.
  cbn [clean Py.nonempty prefix_of String.append].
  now rewrite append_assoc.
Qed.

Lemma nested_directory_same_key_witness :
  full_path (mkRecord "r:a/b/c.txt" "r" 1 "f" None)
  = full_path (mkRecord "r:a/b/c.txt" "r" 1 "f" None).
Proof.
  refine (nested_directory_same_key "r" "/a/b/" (line ["c.txt"; "f"; "1"])
            (line ["a/b/c.txt"; "f"; "1"])
            (mkRecord "r:a/b/c.txt" "r" 1 "f" None)
            (mkRecord "r:a/b/c.txt" "r" 1 "f" None) _ _ _ _).
  - discriminate.
  - reflexivity.
  - reflexivity.
  - reflexivity.
Defined.

Lemma strip_app_char (p : ascii -> bool) (c : ascii) (s : string) :
  p c = true -> Py.strip p (s ++ String c EmptyString) = Py.strip p s.
Proof.
  intros Hc. unfold Py.strip. induction s as [|a s IH]; cbn [String.append Py.lstrip].
  - rewrite Hc. reflexivity.
  - destruct (p a); [exact IH|].
    change (String a (s ++ String c EmptyString)) with (String a s ++ String c EmptyString).
    now apply rstrip_app_char.
Qed.

Lemma clean_slashes (dir_path : string) :
  clean (String Py.slash dir_path) = clean dir_path
  /\ clean (dir_path ++ "/") = clean dir_path
  /\ clean (clean dir_path) = clean dir_path.
Proof.
  rewrite !clean_is_strip. splits.
  - reflexivity.
  - now apply strip_app_char.
  - apply strip_idempotent.
Qed.

(** X7. A directory argument is read up to its leading and trailing
    separators: [d], [/d], [d/] and the stripped [d] have the same scoped
    target, are counted and listed by the same subprocess calls, and give
    the same run of the listing ingestor. *)
Theorem directory_slashes_ignored
    (env : environment) (drive_name dir_path : string) (n : Z) (w : world) :
  let same (other : string) :=
    scoped_target drive_name other = scoped_target drive_name dir_path
    /\ _count_remote_items env drive_name other w
       = _count_remote_items env drive_name dir_path w
    /\ _index_target env drive_name other n w
       = _index_target env drive_name dir_path n w in
  same (String Py.slash dir_path) /\ same (dir_path ++ "/") /\ same (clean dir_path).
Proof.
  cbn zeta.
  assert (H : forall other, clean other = clean dir_path ->
            scoped_target drive_name other = scoped_target drive_name dir_path
            /\ _count_remote_items env drive_name other w
               = _count_remote_items env drive_name dir_path w
            /\ _index_target env drive_name other n w
               = _index_target env drive_name dir_path n w).
  { intros other Hclean.
    assert (Hs : scoped_target drive_name other = scoped_target drive_name dir_path)
      by (unfold scoped_target; now rewrite Hclean).
    splits; auto.
    - unfold _count_remote_items. now rewrite Hs.
    - unfold _index_target, _index_target_with. now rewrite Hs, Hclean. }
  destruct (clean_slashes dir_path) as (H1 & H2 & H3).
  splits; now apply H.
Qed.

(** ** The requested remotes and the resolved targets *)

Lemma in_product (remotes directories : list string) (d dir : string) :
  In (d, dir) (product remotes directories) <-> In d remotes /\ In dir directories.
Proof.
  unfold product. rewrite in_flat_map. split.
  - intros (x & Hx & H). apply in_map_iff in H as (y & [= <- <-] & Hy). auto.
  - intros [Hd Hdir]. exists d. split; [exact Hd|]. apply in_map_iff. eauto.
Qed.

Lemma product_length (remotes directories : list string) :
  List.length (product remotes directories)
  = (List.length remotes * List.length directories)%nat.
Proof.
  induction remotes as [|r remotes IH]; [reflexivity|].
  change (product (r :: remotes) directories)
    with (map (fun directory => (r, directory)) directories
          ++ product remotes directories)%list.
  rewrite length_app, length_map. unfold scan_target in IH. rewrite IH.
  cbn [List.length]. lia.
Qed.

Lemma none_missing (keys l : list string) :
  filter (fun d => negb (Py.member d keys)) l = [] -> forall x, In x l -> In x keys.
Proof.
  induction l as [|y l IH]; [intros _ x []|]. cbn [filter].
  destruct (Py.member y keys) eqn:E; cbn [negb]; [|discriminate].
  intros H x [<-|Hx]; [now apply member_in|now apply IH].
Qed.

(** X8. When the resolver returns targets, every one of them pairs a remote
    of the registry with a directory of the data source, every such pair of
    a selected remote and a directory is among them, and their number is the
    number of selected remotes times the number of directories (a remote
    requested twice is scanned twice). *)
Theorem resolved_targets_are_registered
    (self : datasource) (registry : list (string * list (string * string)))
    (targets : list scan_target) :
  _resolve_targets self registry = Ok targets ->
  (forall d dir, In (d, dir) targets
                 <-> In d (selected self registry) /\ In dir (directories self))
  /\ (forall d dir, In (d, dir) targets -> In d (map fst registry))
  /\ List.length targets
     = (List.length (selected self registry) * List.length (directories self))%nat.
Proof.
  rewrite resolve_targets_unfold.
  destruct (filter _ (selected self registry)) eqn:Hmissing; [|discriminate].
  intros [= <-]. splits.
  - intros d dir. apply in_product.
  - intros d dir H. apply in_product in H as [Hd _].
    now apply (none_missing _ _ Hmissing).
  - apply product_length.
Qed.

Lemma resolved_targets_are_registered_witness :
  List.length [("b", "/"); ("a", "/")] = (2 * 1)%nat.
Proof.
  refine (proj2 (proj2 (resolved_targets_are_registered reversed_request
                          (config_sections sample_env)
                          [("b", "/"); ("a", "/")] _))).
  reflexivity.
Defined.

(** X9. Names given as one comma-separated string are split on the commas
    and trimmed, and the empty ones are dropped: every requested remote the
    constructor keeps is non-empty, has no white space at either end and
    holds no comma, and so has every directory given as a non-empty string
    under [dirs], unless nothing is left of it and the list is the default
    root alone; a string of blank names requests no remote at all. *)
Theorem comma_separated_names_are_trimmed (ps : params) :
  let trimmed (x : string) :=
    x <> EmptyString /\ Py.strip_ws x = x /\ free_of Py.comma x = true in
  (forall s, p_drives ps = PStr s -> Forall trimmed (drives (__init__ ps)))
  /\ (forall s, p_dirs ps = PStr s -> Py.nonempty s = true ->
        directories (__init__ ps) = [EmptyString]
        \/ Forall trimmed (directories (__init__ ps)))
  /\ (forall s, p_drives ps = PStr s ->
        Forall (fun f => Py.strip_ws f = EmptyString) (Py.split Py.comma s) ->
        drives (__init__ ps) = []).
Proof.
  cbn zeta.
  assert (Hsplit : forall s,
             Forall (fun x => x <> EmptyString /\ Py.strip_ws x = x
                              /\ free_of Py.comma x = true)
                    (comma_separated (PStr s))).
  { intros s. cbn [comma_separated]. apply Forall_forall. intros x Hx.
    apply filter_In in Hx as [Hx Hne]. apply in_map_iff in Hx as (f & <- & Hf).
    splits.
    - now apply nonempty_spec.
    - apply strip_idempotent.
    - pose proof (split_fields_free Py.comma s) as Hfree.
      rewrite Forall_forall in Hfree. specialize (Hfree f Hf).
      unfold free_of, Py.strip_ws, Py.strip in *.
      now apply all_chars_rstrip, all_chars_lstrip. }
  assert (Hpor : forall s,
             comma_separated (por (PStr s) (PList [])) = comma_separated (PStr s)).
  { intros s. unfold por. cbn [truthy]. destruct s; reflexivity. }
  splits.
  - intros s Hs. unfold __init__; cbn [drives]. rewrite Hs, Hpor. apply Hsplit.
  - intros s Hs Hne. unfold __init__; cbn [directories]. rewrite Hs.
    assert (Hor : por (por (PStr s) (p_directories ps)) (PList []) = PStr s).
    { unfold por. cbn [truthy]. rewrite Hne. cbn [truthy]. now rewrite Hne. }
    rewrite !Hor.
    pose proof (Hsplit s) as H.
    destruct (comma_separated (PStr s)); [now left|right; exact H].
  - intros s Hs Hblank. unfold __init__; cbn [drives]. rewrite Hs, Hpor.
    cbn [comma_separated]. induction Hblank as [|f fields Hf _ IH]; [reflexivity|].
    cbn [map filter]. now rewrite Hf.
Qed.
(** ** What every run of the ingestor keeps *)

Lemma listing_call_ingest (l : list event) :
  Forall (fun e => ingest_event e = true) l -> Forall (fun e => listing_call e = true) l.
Proof.
  apply Forall_impl. intros e. destruct e; cbn; congruence.
Qed.

Lemma commits_set_processed (n : Z) (l : list event) :
  commits (EvSetProcessed n :: l) = commits l.
Proof. reflexivity. Qed.

Lemma commits_commit (batch : list record) (l : list event) :
  commits (EvCommit batch :: l) = batch :: commits l.
Proof. reflexivity. Qed.

(** The loop over the lines commits complete batches only, keeps less than
    a batch in hand, and leaves the completion flag alone. *)
Lemma index_lines_frame (env : environment) (drive_name clean_dir : string) :
  forall (lines : list string) (batch : list record) (n : Z) (w : world),
    len batch < batch_size ->
    let o := for_each (index_line env drive_name clean_dir) lines (batch, n) w in
    Forall (fun b => len b = batch_size) (commits (calls o))
    /\ fetch_completed (state (after o)) = fetch_completed (state w)
    /\ (forall batch' n', returned o = Ok (batch', n') -> len batch' < batch_size).
Proof.
  induction lines as [|line lines IH]; intros batch n w Hlen; cbn zeta.
  - cbn. splits; auto. now intros ? ? [= <- <-].
  - rewrite for_each_cons.
    line_cases env drive_name clean_dir batch n w line; cbn [returned after calls].
    + cbn. splits; auto. intros; discriminate.
    + cbn [app]. now apply IH.
    + destruct (IH (batch ++ [r])%list (n + 1) (with_processed (n + 1) w) H0)
        as (Hfull & Hflag & Hret).
      cbn [app]. rewrite commits_set_processed, commits_app, commits_emit. cbn [app]. now splits.
    + assert (Hnil : len (@nil record) < batch_size) by (cbn; unfold batch_size; lia).
      destruct (IH [] (n + 1)
                   (with_processed (n + 1) (with_catalog (executemany t (batch ++ [r])) w))
                   Hnil) as (Hfull & Hflag & Hret).
      cbn [app]. rewrite commits_commit, commits_set_processed, commits_app, commits_emit.
      cbn [app].
      splits; auto. constructor; [|exact Hfull].
      rewrite len_app in *. cbn in *. unfold batch_size in *. lia.
    + cbn. splits; auto. intros; discriminate.
Qed.

Lemma sized_full (l : list (list record)) :
  Forall (fun b => len b = batch_size) l -> Forall sized l.
Proof.
  apply Forall_impl. intros b Hb. unfold sized. rewrite Hb. unfold batch_size. lia.
Qed.

(** What the listing of one target keeps, however it ends. *)
Lemma index_target_frame (env : environment) (tg : scan_target) (n : Z) (w : world) :
  let o := _index_target env (fst tg) (snd tg) n w in
  Forall (fun e => listing_call e = true) (calls o)
  /\ fetch_completed (state (after o)) = fetch_completed (state w)
  /\ Forall sized (commits (calls o))
  /\ (forall e, returned o = Raise e ->
        Forall (fun b => len b = batch_size) (commits (calls o))).
Proof.
  destruct tg as [drive_name dir_path]. cbn [fst snd]. cbn zeta.
  rewrite index_target_unfold. cbn zeta.
  assert (Hnil : len (@nil record) < batch_size) by (cbn; unfold batch_size; lia).
  destruct (index_lines_frame env drive_name (clean dir_path)
              (lsf_stdout (listing env (drive_name, dir_path))) [] n w Hnil)
    as (Hfull & Hflag & Hret).
  destruct (index_lines_any env drive_name (clean dir_path)
              (lsf_stdout (listing env (drive_name, dir_path))) [] n w) as (Hev & _).
  cbn zeta in Hfull, Hflag, Hret, Hev.
  set (o := for_each _ _ _ w) in *.
  apply listing_call_ingest in Hev.
  destruct (returned o) as [[batch processed]|e] eqn:Ho; cbn [returned after calls].
  2: { rewrite commits_lsf. splits; auto using sized_full. }
  specialize (Hret _ _ eq_refl).
  destruct (negb (lsf_returncode _ =? 0)); cbn [returned after calls].
  { rewrite commits_lsf. splits; auto using sized_full. }
  destruct batch as [|r batch]; cbn [returned after calls].
  { rewrite commits_lsf. splits; auto using sized_full. }
  destruct (flush_batch_cases (r :: batch) (after o)) as [(t & Ht & Hf)|Hf];
    rewrite Hf; cbn [returned after calls].
  - rewrite commits_lsf, commits_app. splits.
    + constructor; [reflexivity|]. apply Forall_app. split; [exact Hev|].
      constructor; [reflexivity|constructor].
    + exact Hflag.
    + apply Forall_app. split; [now apply sized_full|].
      constructor; [|constructor]. unfold sized. split; [|lia].
      unfold len. cbn [List.length]. lia.
    + intros; discriminate.
  - rewrite app_nil_r, commits_lsf. splits; auto using sized_full.
Qed.

(** What the loop over the targets keeps, however it ends. *)
Lemma index_targets_frame (env : environment) :
  forall (targets : list scan_target) (n : Z) (w : world),
    let o := index_targets env targets n w in
    Forall (fun e => listing_call e = true) (calls o)
    /\ fetch_completed (state (after o)) = fetch_completed (state w)
    /\ Forall sized (commits (calls o)).
Proof.
  induction targets as [|tg targets IH]; intros n w; cbn zeta.
  - cbn. splits; auto.
  - rewrite index_targets_cons. cbn zeta.
    destruct (index_target_frame env tg n w) as (Hev & Hflag & Hsized & _).
    cbn zeta in Hev, Hflag, Hsized.
    destruct (returned (_index_target env (fst tg) (snd tg) n w)) as [n'|e];
      cbn [returned after calls]; [|now splits].
    destruct (IH n' (after (_index_target env (fst tg) (snd tg) n w)))
      as (Hev' & Hflag' & Hsized').
    rewrite commits_app. splits.
    + apply Forall_app; auto.
    + congruence.
    + apply Forall_app; auto.
Qed.
(** ** What every run of [fetch] keeps *)

(** A run either fails before its first call, or goes on to the targets. *)
Lemma fetch_cases (self : datasource) (env : environment) (w : world) :
  (exists e, fetch self env w = mkOutcome (Raise e) w [])
  \/ exists tg targets,
       _resolve_targets self (config_sections env) = Ok (tg :: targets)
       /\ fetch self env w = fetch_targets self env (tg :: targets) w.
Proof.
  rewrite fetch_unfold.
  destruct (negb (config_exists env)); [left; eauto|].
  destruct (negb (rclone_installed env)); [left; eauto|].
  destruct (_resolve_targets self (config_sections env)) as [[|tg targets]|e];
    [left; eauto|right; eauto|left; eauto].
Qed.

Lemma forall_emit_events (P : event -> Prop) (env : environment) (p : progress) :
  (forall q, P (EvEmit q)) -> Forall P (emit_events env p).
Proof.
  intros H. unfold emit_events. destruct (emit_progress env); auto.
Qed.

Lemma forall_size_calls (P : event -> Prop) (targets : list scan_target) :
  (forall t, P (EvSize t)) -> Forall P (map (fun t => EvSize (scoped t)) targets).
Proof.
  intros H. apply Forall_forall. intros e He.
  apply in_map_iff in He as (t & <- & _). apply H.
Qed.

Lemma commits_none (l : list event) :
  Forall (fun e => is_commit e = false) l -> commits l = [].
Proof.
  induction 1 as [|e l He _ IH]; [reflexivity|].
  destruct e; try discriminate; exact IH.
Qed.

Lemma prologue_commits (self : datasource) (env : environment)
    (targets : list scan_target) (w : world) :
  commits (prologue self env targets w) = [].
Proof.
  apply commits_none. unfold prologue.
  repeat (apply Forall_app; split); repeat constructor.
  - now apply forall_size_calls.
  - now apply forall_emit_events.
Qed.

Lemma fetch_targets_commits (self : datasource) (env : environment)
    (targets : list scan_target) (w : world) :
  commits (calls (fetch_targets self env targets w))
  = commits (calls (index_targets env targets 0 (started env targets w))).
Proof.
  unfold fetch_targets.
  destruct (returned (index_targets env targets 0 (started env targets w)));
    cbn [calls]; rewrite !commits_app, prologue_commits; cbn [app].
  - cbn [commits flat_map app]. fold (commits (emit_events env
      (state (with_completed true
                (after (index_targets env targets 0 (started env targets w))))))).
    now rewrite commits_emit, app_nil_r.
  - cbn. now rewrite app_nil_r.
Qed.

(** X10. Whatever the listings hold and however the run ends, every batch
    [fetch] hands to [executemany] has at least one tuple and at most 500;
    and when the listing of a target ends in an exception, the batches
    committed for that target are complete ones of 500 tuples each. *)
Theorem commit_batches_bounded (self : datasource) (env : environment) (w : world) :
  Forall sized (commits (calls (fetch self env w)))
  /\ (forall tg n w' e,
        returned (_index_target env (fst tg) (snd tg) n w') = Raise e ->
        Forall (fun b => len b = batch_size)
               (commits (calls (_index_target env (fst tg) (snd tg) n w')))).
Proof.
  split.
  - destruct (fetch_cases self env w) as [(e & ->)|(tg & targets & _ & ->)].
    + constructor.
    + rewrite fetch_targets_commits. apply index_targets_frame.
  - intros tg n w' e. apply index_target_frame.
Qed.









(** ** The catalogue across a run *)

Lemma fetch_targets_committed (self : datasource) (env : environment)
    (targets : list scan_target) (w : world) :
  committed (calls (fetch_targets self env targets w))
  = committed (calls (index_targets env targets 0 (started env targets w))).
Proof. unfold committed. now rewrite fetch_targets_commits. Qed.

(** The catalogue a run leaves is the one it found with the committed
    tuples written to it in order. *)
Lemma fetch_catalog (self : datasource) (env : environment) (w : world) :
  opened (catalog (after (fetch self env w)))
  = executemany (opened (catalog w)) (committed (calls (fetch self env w))).
Proof.
  destruct (fetch_cases self env w) as [(e & ->)|(tg & targets & _ & ->)].
  - reflexivity.
  - rewrite fetch_targets_committed.
    destruct (fetch_targets_state self env (tg :: targets) w) as (-> & _).
    destruct (index_targets_any env (tg :: targets) 0 (started env (tg :: targets) w))
      as (_ & _ & Hcat & _).
    cbn zeta in Hcat. now rewrite (Hcat _ (started_catalog env _ w)).
Qed.

Lemma filter_path_once (p : string) (l : list row) :
  NoDup (map full_path (map fields l)) ->
  (List.length (filter (has_path p) l) <= 1)%nat.
Proof.
  induction l as [|x l IH]; cbn [map filter]; [auto|].
  intros Hnd. inversion Hnd as [|? ? Hnotin Hnd']; subst.
  destruct (has_path p x) eqn:E; [|now apply IH].
  cbn [List.length]. destruct (filter (has_path p) l) as [|y ys] eqn:F; [cbn; lia|].
  exfalso. apply Hnotin.
  assert (Hy : In y (filter (has_path p) l)) by (rewrite F; now left).
  apply filter_In in Hy as [Hy Hp]. apply has_path_eq in Hp, E. rewrite E, <- Hp.
  now apply in_map, in_map.
Qed.

Lemma filter_split_length {A} (f : A -> bool) (l : list A) :
  (List.length (filter f l) + List.length (filter (fun x => negb (f x)) l))%nat
  = List.length l.
Proof.
  induction l as [|x l IH]; [reflexivity|].
  cbn [filter]. destruct (f x); cbn [negb List.length]; lia.
Qed.

Lemma insert_keeps_rows (t : table) (r : record) :
  unique_paths t ->
  (List.length (rows t) <= List.length (rows (insert_or_replace t r)))%nat.
Proof.
  intros Hu. unfold insert_or_replace; cbn [rows]. rewrite length_app. cbn [List.length].
  pose proof (filter_path_once (full_path r) (rows t) Hu).
  pose proof (filter_split_length (has_path (full_path r)) (rows t)). lia.
Qed.

Lemma executemany_keeps_rows (batch : list record) :
  forall t, unique_paths t ->
    (List.length (rows t) <= List.length (rows (executemany t batch)))%nat.
Proof.
  induction batch as [|r batch IH]; intros t Hu; [cbn; lia|].
  change (executemany t (r :: batch)) with (executemany (insert_or_replace t r) batch).
  etransitivity; [now apply (insert_keeps_rows t r)|].
  apply IH. now apply insert_unique.
Qed.

Lemma executemany_sequence (batch : list record) :
  forall t, sequence (executemany t batch) = sequence t + len batch.
Proof.
  induction batch as [|r batch IH]; intros t; [cbn; lia|].
  change (executemany t (r :: batch)) with (executemany (insert_or_replace t r) batch).
  rewrite IH. unfold len. cbn [insert_or_replace sequence List.length]. lia.
Qed.

(** X14. Whatever a run of [fetch] does and however it ends, the catalogue
    it leaves is the catalogue it found with the committed tuples written
    over it in order.  So a path reads as the last tuple committed under it,
    or as before the run when none was; no path of the catalogue is ever
    removed, not even for a file the remote no longer lists; under the
    uniqueness constraint the number of rows never goes down; and the rowid
    counter advances by one for every tuple committed, also when the tuple
    replaces a row. *)
Theorem catalogue_only_grows (self : datasource) (env : environment) (w : world) :
  let o := fetch self env w in
  let found := opened (catalog w) in
  let left := opened (catalog (after o)) in
  left = executemany found (committed (calls o))
  /\ (forall p, select left p
                = match last_write (committed (calls o)) p with
                  | Some r => Some r
                  | None => select found p
                  end)
  /\ (forall p, select found p <> None -> select left p <> None)
  /\ (unique_paths found ->
      unique_paths left /\ (List.length (rows found) <= List.length (rows left))%nat)
  /\ sequence left = sequence found + len (committed (calls o)).
Proof.
  cbn zeta. rewrite fetch_catalog. splits.
  - reflexivity.
  - intros p. apply select_executemany.
  - intros p Hp. rewrite select_executemany.
    now destruct (last_write (committed (calls (fetch self env w))) p).
  - intros Hu. split; [now apply executemany_unique|now apply executemany_keeps_rows].
  - apply executemany_sequence.
Qed.

(** ** Listings that fail *)

Lemma length_complete (n : nat) : (complete n <= n)%nat.
Proof. unfold complete. apply Nat.Div0.mul_div_le. Qed.

(** X15. When the listing of a target is readable but the subprocess ends
    with a non-zero status, the progress counter has been advanced once for
    every record of the listing, while the catalogue has received the
    complete batches only: the counter is ahead of the rows written by the
    number of records modulo 500. *)
Theorem failed_listing_overreports_progress
    (env : environment) (tg : scan_target) (n : Z) (w : world) (t : table) :
  catalog w = Some t ->
  processed_items (state w) = n ->
  Forall (fun l => harmless l = true) (lsf_stdout (listing env tg)) ->
  lsf_returncode (listing env tg) <> 0 ->
  let o := _index_target env (fst tg) (snd tg) n w in
  let recs := target_records env tg in
  processed_values (calls o) = counting n (List.length recs)
  /\ processed_items (state (after o)) = n + len recs
  /\ len (committed (calls o)) = Z.of_nat (complete (List.length recs))
  /\ processed_items (state (after o)) - (n + len (committed (calls o)))
     = Z.of_nat (List.length recs mod 500).
Proof.
  intros Hc Hn Hlines Hrc o recs.
  destruct (index_target_fails env tg n w t Hc Hlines Hrc) as (_ & _ & Hcom & _).
  fold o recs in Hcom.
  assert (Hrun : processed_values (calls o) = counting n (List.length recs)
                 /\ processed_items (state (after o)) = n + len recs).
  { subst o recs. destruct tg as [drive_name dir_path]. cbn [fst snd].
    rewrite index_target_unfold. cbn zeta.
    unfold target_records; cbn [fst snd].
    assert (Hb : bindable [] = true) by reflexivity.
    assert (Hl : len (@nil record) < batch_size) by (cbn; unfold batch_size; lia).
    destruct (index_lines_run env drive_name (clean dir_path) _ [] n w t Hc Hlines Hb Hl)
      as (full & rest & Hret & _).
    destruct (index_lines_any env drive_name (clean dir_path)
                (lsf_stdout (listing env (drive_name, dir_path))) [] n w)
      as (_ & _ & _ & k & Hvals & Hstate & Hk).
    cbn zeta in Hret, Hvals, Hstate, Hk.
    destruct (Hk _ _ Hret) as (_ & _ & -> & _).
    rewrite Hret.
    destruct (lsf_returncode (listing env (drive_name, dir_path)) =? 0) eqn:E;
      [apply Z.eqb_eq in E; contradiction|].
    cbn [negb returned after calls].
    change (processed_values (EvLsf ?x :: ?l)) with (processed_values l).
    split; [exact Hvals|]. rewrite (Hstate Hn). reflexivity. }
  destruct Hrun as (Hvals & Hstate).
  assert (Hlen : len (committed (calls o)) = Z.of_nat (complete (List.length recs))).
  { rewrite Hcom. unfold len. rewrite firstn_length_le by apply length_complete. reflexivity. }
  splits; auto.
  rewrite Hstate, Hlen. unfold len, complete.
  pose proof (Nat.div_mod_eq (List.length recs) 500). lia.
Qed.

Lemma failed_listing_overreports_progress_witness :
  processed_items (state (after (_index_target sample_env "b" EmptyString 0 sample_world))) = 1
  /\ committed (calls (_index_target sample_env "b" EmptyString 0 sample_world)) = [].
Proof.
  pose proof (failed_listing_overreports_progress sample_env ("b", EmptyString) 0 sample_world
                Sqlite.empty eq_refl eq_refl) as H.
  cbv zeta in H.
  refine ((fun H' => conj (proj1 (proj2 H')) eq_refl) (H _ _)).
  - repeat constructor.
  - discriminate.
Defined.

Lemma index_line_crash (env : environment) (drive_name clean_dir l : string)
    (vars : list record * Z) (w : world) (e : exn) :
  line_record drive_name clean_dir l = Raise e ->
  index_line env drive_name clean_dir vars l w = mkOutcome (Raise e) w [].
Proof.
  intros H. unfold index_line, index_line_with. destruct vars as [batch n].
  rewrite bind_unfold. cbn [lift returned after calls]. now rewrite H.
Qed.

Lemma line_record_bad_size (drive_name clean_dir l : string) :
  is_record_line l = true ->
  2 < len (fields_of l) ->
  Py.isdigit (nth 2 (fields_of l) EmptyString) = true ->
  Py.isdecimal (nth 2 (fields_of l) EmptyString) = false ->
  line_record drive_name clean_dir l
  = Raise (invalid_literal (nth 2 (fields_of l) EmptyString)).
Proof.
  intros Hrec Hlen Hdigit Hdec. rewrite line_record_unfold, Hrec.
  unfold size_of, int. apply Z.ltb_lt in Hlen. now rewrite Hlen, Hdigit, Hdec.
Qed.

(** X16. A size field that [isdigit] accepts and [int] does not read (a
    superscript digit) is not taken as 0: the line raises [ValueError] out
    of the loop.  The listing of the target ends there: the lines after it
    are not read, the catalogue keeps the complete batches of the lines
    before it, and the records parsed since the last complete batch are
    written nowhere. *)
Theorem unreadable_size_aborts_listing
    (env : environment) (tg : scan_target) (n : Z) (w : world) (t : table)
    (earlier later : list string) (l : string) :
  catalog w = Some t ->
  lsf_stdout (listing env tg) = (earlier ++ l :: later)%list ->
  Forall (fun x => harmless x = true) earlier ->
  is_record_line l = true ->
  2 < len (fields_of l) ->
  Py.isdigit (nth 2 (fields_of l) EmptyString) = true ->
  Py.isdecimal (nth 2 (fields_of l) EmptyString) = false ->
  let o := _index_target env (fst tg) (snd tg) n w in
  let recs := records_of (fst tg) (clean (snd tg)) earlier in
  returned o = Raise (invalid_literal (nth 2 (fields_of l) EmptyString))
  /\ committed (calls o) = firstn (complete (List.length recs)) recs
  /\ catalog (after o) = Some (executemany t (committed (calls o)))
  /\ processed_values (calls o) = counting n (List.length recs).
Proof.
  intros Hc Hlines Hearlier Hrec Hlen Hdigit Hdec o recs.
  subst o recs. destruct tg as [drive_name dir_path]. cbn [fst snd].
  rewrite index_target_unfold. cbn zeta. rewrite Hlines.
  pose proof (line_record_bad_size drive_name (clean dir_path) l Hrec Hlen Hdigit Hdec)
    as Hbad.
  assert (Hb : bindable [] = true) by reflexivity.
  assert (Hl : len (@nil record) < batch_size) by (cbn; unfold batch_size; lia).
  destruct (index_lines_run env drive_name (clean dir_path) earlier [] n w t Hc Hearlier Hb Hl)
    as (full & rest & Hret & Hcommits & Hsplit & Hfull & Hrest & _ & Hcat & _).
  destruct (index_lines_any env drive_name (clean dir_path) earlier [] n w)
    as (_ & _ & _ & k & Hvals & _ & Hk).
  cbn zeta in Hret, Hcommits, Hsplit, Hcat, Hvals, Hk.
  destruct (Hk _ _ Hret) as (_ & _ & -> & _).
  cbn [app] in Hsplit.
  destruct (batches_split _ _ _ Hsplit Hfull Hrest) as (Hkept & _).
  rewrite for_each_app, bind_unfold, Hret, for_each_cons.
  rewrite (index_line_crash _ _ _ _ _ _ _ Hbad).
  cbn [returned after calls]. rewrite app_nil_r, committed_lsf.
  change (processed_values (EvLsf ?x :: ?c)) with (processed_values c).
  unfold committed at 1 2. rewrite Hcommits, Hkept.
  splits; auto. rewrite Hcat. now rewrite Hkept.
Qed.

Lemma unreadable_size_aborts_listing_witness :
  returned (_index_target superscript_env "a" EmptyString 0 sample_world)
  = Raise (ValueError
             ("invalid literal for int() with base 10: '"
              ++ String "178"%char EmptyString ++ "'"))
  /\ catalog (after (_index_target superscript_env "a" EmptyString 0 sample_world))
     = Some Sqlite.empty.
Proof.
  pose proof (unreadable_size_aborts_listing superscript_env ("a", EmptyString) 0 sample_world
                Sqlite.empty [line ["x.txt"; "f"; "12"]] [line ["z.txt"; "f"; "7"]]
                (line ["y.txt"; "f"; String "178"%char EmptyString])
                eq_refl eq_refl) as H.
  cbv zeta in H.
  refine ((fun H' => conj (proj1 H') eq_refl) (H _ _ _ _ _)).
  - repeat constructor.
  - reflexivity.
  - reflexivity.
  - reflexivity.
  - reflexivity.
Defined.
(** ** Counting, validation and the summary *)

(** X17. When [rclone size] ends with a non-zero status, the counter raises
    [RuntimeError] whatever the subprocess printed on its standard output:
    the message is the standard error without the white space around it,
    or the fixed text when nothing is left of it, so it is never empty; the
    subprocess was called once and the world is as it was. *)
Theorem count_failure_message
    (env : environment) (drive_name dir_path : string) (w : world) :
  size_returncode (rclone_size env (scoped_target drive_name dir_path)) <> 0 ->
  let stderr := size_stderr (rclone_size env (scoped_target drive_name dir_path)) in
  exists msg,
    _count_remote_items env drive_name dir_path w
    = mkOutcome (Raise (RuntimeError msg)) w [EvSize (scoped_target drive_name dir_path)]
    /\ msg <> EmptyString
    /\ Py.strip_ws msg = msg
    /\ (Py.strip_ws stderr <> EmptyString -> msg = Py.strip_ws stderr)
    /\ (Py.strip_ws stderr = EmptyString -> msg = "Unknown rclone size error").
Proof.
  intros Hrc. cbn zeta.
  pose proof (count_remote_items_run env (drive_name, dir_path) w) as Hrun.
  unfold scoped in Hrun; cbn [fst snd] in Hrun. rewrite Hrun.
  destruct (size_returncode _ =? 0) eqn:E; [apply Z.eqb_eq in E; contradiction|].
  eexists. split; [reflexivity|].
  destruct (Py.strip_ws (size_stderr (rclone_size env (scoped_target drive_name dir_path))))
    as [|c rest] eqn:Hs; cbn [Py.nonempty].
  - splits; try reflexivity; try discriminate. intros H; now contradiction H.
  - splits; try reflexivity; try discriminate.
    rewrite <- Hs. apply strip_idempotent.
Qed.

Lemma count_failure_message_witness :
  _count_remote_items sample_env "b" EmptyString sample_world
  = mkOutcome (Raise (RuntimeError "directory not found")) sample_world [EvSize "b:"].
Proof.
  destruct (count_failure_message sample_env "b" EmptyString sample_world
              ltac:(discriminate)) as (msg & H & _ & _ & Hmsg & _).
  rewrite H, Hmsg by discriminate. reflexivity.
Defined.

(** X18. The checks of a run are made in order and before any call to the
    outside: a missing configuration file gives [FileNotFoundError] with
    the path, also when the binary is missing too; a missing binary gives
    [EnvironmentError]; and a run makes no call at all exactly when one of
    the two is missing or the resolver gives no target. *)
Theorem validation_precedes_every_call (self : datasource) (env : environment) (w : world) :
  let o := fetch self env w in
  (config_exists env = false ->
   o = mkOutcome (Raise (FileNotFoundError
                           ("rclone config not found: " ++ rclone_config_path self))) w [])
  /\ (config_exists env = true -> rclone_installed env = false ->
      o = mkOutcome (Raise (EnvironmentError "rclone binary not found on PATH.")) w [])
  /\ (calls o = []
      <-> config_exists env = false \/ rclone_installed env = false
          \/ forall tg targets,
               _resolve_targets self (config_sections env) <> Ok (tg :: targets)).
Proof.
  cbn zeta. rewrite fetch_unfold. splits.
  - now intros ->.
  - now intros -> ->.
  - destruct (config_exists env); cbn [negb]; [|split; auto].
    destruct (rclone_installed env); cbn [negb]; [|split; auto].
    destruct (_resolve_targets self (config_sections env)) as [[|tg targets]|e].
    + split; [|reflexivity]. intros _. right; right. intros; discriminate.
    + split.
      * unfold fetch_targets.
        destruct (returned (index_targets env (tg :: targets) 0
                              (started env (tg :: targets) w))); discriminate.
      * intros [H|[H|H]]; try discriminate. now contradiction (H tg targets).
    + split; [|reflexivity]. intros _. right; right. intros; discriminate.
Qed.

(** X19. The summary of a run that returns names every selected remote
    once, however many directories were scanned on it: its list of remotes
    has no duplicate, holds exactly the selected remotes, and each of them
    is a remote of the registry. *)
Theorem summary_names_each_remote_once
    (self : datasource) (env : environment) (w : world) (s : summary) :
  returned (fetch self env w) = Ok s ->
  NoDup (remotes s)
  /\ (forall d, In d (remotes s) <-> In d (selected self (config_sections env)))
  /\ (forall d, In d (remotes s) -> In d (map fst (config_sections env))).
Proof.
  destruct (fetch_cases self env w) as [(e & ->)|(tg & targets & Hres & ->)];
    [discriminate|].
  rewrite resolve_targets_unfold in Hres.
  destruct (filter _ (selected self (config_sections env))) eqn:Hmissing; [|discriminate].
  injection Hres as Hres.
  assert (Hin : forall d, In d (map fst (tg :: targets))
                          <-> In d (selected self (config_sections env))).
  { intros d. rewrite <- Hres. split.
    - intros H. apply in_map_iff in H as ([d' dir] & <- & H).
      now apply in_product in H.
    - intros H. destruct tg as [d0 dir0].
      assert (Hdir : In dir0 (directories self)).
      { assert (H0 : In (d0, dir0) (product (selected self (config_sections env))
                                            (directories self)))
          by (rewrite Hres; now left).
        now apply in_product in H0. }
      apply in_map_iff. exists (d, dir0). split; [reflexivity|].
      apply in_product. now split. }
  clear Hres. remember (tg :: targets) as ts eqn:Hts. clear Hts.
  unfold fetch_targets.
  destruct (returned (index_targets env ts 0 (started env ts w)));
    cbn [returned]; [|discriminate].
  intros [= <-]. cbn [remotes].
  splits.
  - apply NoDup_nodup.
  - intros d. rewrite nodup_In. apply Hin.
  - intros d Hd. apply nodup_In, Hin in Hd.
    now apply (none_missing _ _ Hmissing).
Qed.

Lemma summary_names_each_remote_once_witness :
  returned (fetch single_request short_lines_env fresh_world)
  = Ok {| db_path := "my_files.sqlite"; total_indexed := 2; remotes := ["a"] |}
  /\ NoDup ["a"].
Proof.
  split; [reflexivity|].
  exact (proj1 (summary_names_each_remote_once single_request short_lines_env fresh_world
                  {| db_path := "my_files.sqlite"; total_indexed := 2; remotes := ["a"] |}
                  eq_refl)).
Defined.

(** ** The path of the configuration file *)

Lemma lstrip_idempotent (p : ascii -> bool) (s : string) :
  Py.lstrip p (Py.lstrip p s) = Py.lstrip p s.
Proof.
  destruct (lstrip_shape p s) as [->|(c & rest & -> & Hc)]; [reflexivity|].
  now apply lstrip_head.
Qed.

(** X20. A path that does not begin with [file://] is kept as it is.  Of a
    file URL the path handed to [unquote] and [normpath] never begins with
    a slash or a backslash: the two slashes put before a host name are
    stripped again, so the host is not kept as a UNC prefix and the path
    starts with the host name, and without a host the leading slash of the
    URL path is lost. *)
Theorem normalize_path_strips_leading_separators
    (urlparse : string -> string * string) (unquote normpath : string -> string)
    (path : string) :
  let netloc := fst (urlparse path) in
  let url_path := snd (urlparse path) in
  (startswith "file://" path = false ->
   _normalize_path urlparse unquote normpath path = path)
  /\ (startswith "file://" path = true ->
      exists local_path,
        _normalize_path urlparse unquote normpath path = normpath (unquote local_path)
        /\ Py.lstrip is_separator local_path = local_path
        /\ (forall c rest, netloc = String c rest -> is_separator c = false ->
              local_path = netloc ++ url_path)
        /\ (netloc = EmptyString -> local_path = Py.lstrip is_separator url_path)).
Proof.
  cbn zeta. unfold _normalize_path. split.
  - intros ->. now destruct (negb (Py.nonempty path)).
  - intros Hfile. rewrite Hfile.
    destruct path as [|c0 path0]; [discriminate|]. cbn [Py.nonempty negb].
    eexists. split; [reflexivity|]. splits.
    + apply lstrip_idempotent.
    + intros c rest -> Hc. cbn [Py.nonempty].
      cbn [append Py.lstrip is_separator]. cbn. cbn in Hc. now rewrite Hc.
    + now intros ->.
Qed.
